(** * CallCenterIntelligence: signal utilities, emotion smoothing and call
    quality scoring, embedded from the Python sources.

    Numeric model: numpy arrays of floats are lists of exact rationals
    ([Q], compared with [==]); Python [int] is [Z]; Python lists of labels
    are lists of strings.  A Python exception is the [Raise] branch of
    [result]. *)

From Stdlib Require Import String ZArith QArith Qabs Qminmax List Bool Lia Lqa.
Import ListNotations.

Local Open Scope Q_scope.

(** ** Exceptions *)

Inductive exn : Set :=
| ValueError          (* np.max of an empty array, max() of an empty dict *)
| ParameterError      (* librosa.util.frame: input too short, hop < 1 *)
| ZeroDivisionError   (* float division by zero *)
| FilterError.        (* scipy.signal.butter rejecting its cut-offs *)

Inductive result (A : Type) : Type :=
| Ok (a : A)
| Raise (e : exn).
Arguments Ok {A} a.
Arguments Raise {A} e.

Definition bind {A B : Type} (r : result A) (k : A -> result B) : result B :=
  match r with
  | Ok a => k a
  | Raise e => Raise e
  end.

Notation "x <- r ;; k" := (bind r (fun x => k))
  (at level 61, r at next level, right associativity).

(** [try: body except Exception: handler] *)
Definition try_except {A : Type} (body : result A) (handler : exn -> A) : A :=
  match body with
  | Ok a => a
  | Raise e => handler e
  end.

(** ** audio_processing.py *)

Module AudioProcessing.

(** [np.abs(audio)] *)
Definition np_abs (audio : list Q) : list Q := map Qabs audio.

(** [np.max(a)]: raises ValueError on a zero-size array. *)
Definition np_max (a : list Q) : result Q :=
  match a with
  | [] => Raise ValueError
  | x :: xs => Ok (fold_left Qmax xs x)
  end.

(** [np.min(a)] *)
Definition np_min (a : list Q) : result Q :=
  match a with
  | [] => Raise ValueError
  | x :: xs => Ok (fold_left Qmin xs x)
  end.

(** [x > y] on floats, as a boolean *)
Definition Qgtb (x y : Q) : bool :=
  match y ?= x with Lt => true | _ => false end.

Definition Qltb (x y : Q) : bool := Qgtb y x.

(** [normalize_audio]:
<<
    if np.max(np.abs(audio)) > 0:
        return audio / np.max(np.abs(audio))
    return audio
>> *)
Definition normalize_audio (audio : list Q) : result (list Q) :=
  m <- np_max (np_abs audio) ;;
  if Qgtb m 0 then Ok (map (fun x => x / m) audio) else Ok audio.

(** The cut-offs [bandpass_filter] hands to [butter], after every clamp and
    the re-centring step.  [0.5 * sample_rate] is a Python float, so the two
    divisions by [nyquist] raise ZeroDivisionError when it is zero. *)
Definition bandpass_cutoffs (lowcut highcut : Q) (sample_rate : Z) : result (Q * Q) :=
  let nyquist := 0.5 * inject_Z sample_rate in
  let max_allowed_freq := nyquist * 0.25 in
  let lowcut := Qmax 20 (Qmin lowcut (max_allowed_freq * 0.8)) in
  let highcut := Qmax (lowcut + 30) (Qmin highcut max_allowed_freq) in
  if Qeq_bool nyquist 0 then Raise ZeroDivisionError else
  let low := lowcut / nyquist in
  let high := highcut / nyquist in
  let low := Qmax 0.001 (Qmin low 0.249) in
  let high := Qmax (low + 0.001) (Qmin high 0.249) in
  if Qltb (high - low) 0.01 then
    let mid := (low + high) / 2 in
    Ok (mid - 0.005, mid + 0.005)
  else Ok (low, high).

Section Bandpass.

(** [butter] and [lfilter] belong to scipy, not to this repository: the
    composition "design a band-pass of this order for these cut-offs and
    run it over the data" is a parameter. *)
Variable scipy_butter_lfilter : Z -> Q * Q -> list Q -> result (list Q).

Definition bandpass_filter_body (data : list Q) (lowcut highcut : Q)
           (sample_rate : Z) (order : Z) : result (list Q) :=
  cut <- bandpass_cutoffs lowcut highcut sample_rate ;;
  filtered <- scipy_butter_lfilter order cut data ;;
  m <- np_max (np_abs filtered) ;;
  if Qgtb m 0 then Ok (map (fun x => x / m) filtered) else Ok filtered.

Definition bandpass_filter (data : list Q) (lowcut highcut : Q)
           (sample_rate : Z) (order : Z) : list Q :=
  try_except (bandpass_filter_body data lowcut highcut sample_rate order)
             (fun _ => data).

End Bandpass.

(** *** Mono diarization *)

(** [x[a:b]] for [0 <= a] *)
Definition slice {A : Type} (x : list A) (a b : nat) : list A :=
  firstn (b - a) (skipn a x).

(** [int(sample_rate * c)] for the three durations 0.025, 0.010 and 0.005:
    [int] truncates towards zero, and for an integer rate the float product
    is within rounding of [sample_rate * c], never across an integer. *)
Definition frame_length_of (sample_rate : Z) : Z := Z.quot (sample_rate * 25) 1000.
Definition hop_length_of (sample_rate : Z) : Z := Z.quot (sample_rate * 10) 1000.
Definition transition_length_of (sample_rate : Z) : Z := Z.quot (sample_rate * 5) 1000.

(** [librosa.util.frame(x, frame_length=, hop_length=)] on a 1-d array: the
    columns of the result, frame [t] being [x[t*hop : t*hop + frame_length]];
    there are [1 + (len(x) - frame_length) // hop_length] of them. *)
Definition n_frames (len frame_length hop_length : nat) : nat :=
  1 + (len - frame_length) / hop_length.

Definition librosa_frame (x : list Q) (frame_length hop_length : Z)
  : result (list (list Q)) :=
  if (Z.of_nat (length x) <? frame_length)%Z then Raise ParameterError
  else if (hop_length <? 1)%Z then Raise ParameterError
  else
    let fl := Z.to_nat frame_length in
    let hop := Z.to_nat hop_length in
    Ok (map (fun t => slice x (t * hop) (t * hop + fl))
            (seq 0 (n_frames (length x) fl hop))).

(** [np.sum(a)] and [np.mean(a)] *)
Definition np_sum (a : list Q) : Q := fold_left Qplus a 0.
Definition np_mean (a : list Q) : Q := np_sum a / inject_Z (Z.of_nat (length a)).

(** [mask[start:] = vals] restricted to [len(vals)] positions, i.e. the
    slice assignment [mask[start:start+len(vals)] = vals] inside the array. *)
Fixpoint set_slice (mask : list Q) (start : nat) (vals : list Q) : list Q :=
  match mask with
  | [] => []
  | m :: ms =>
      match start with
      | S s => m :: set_slice ms s vals
      | O => match vals with
             | [] => mask
             | v :: vs => v :: set_slice ms O vs
             end
      end
  end.

(** [np.linspace(a, b, num)]: [num] evenly spaced samples, end point
    included; a single sample is [a]. *)
Definition np_linspace (a b : Q) (num : nat) : list Q :=
  match num with
  | O => []
  | S O => [a]
  | S n => map (fun k => a + inject_Z (Z.of_nat k) * ((b - a) / inject_Z (Z.of_nat n)))
               (seq 0 num)
  end.

(** First loop: 0.8 / 0.2 weights frame by frame. *)
Definition assign_frame (energy : list Q) (threshold : Q)
           (hop_length frame_length len : nat)
           (masks : list Q * list Q) (i : nat) : list Q * list Q :=
  let '(operator_mask, customer_mask) := masks in
  let start := (i * hop_length)%nat in
  let end_ := Nat.min (start + frame_length) len in
  if Qgtb (nth i energy 0) threshold then
    (set_slice operator_mask start (repeat 0.8 (end_ - start)),
     set_slice customer_mask start (repeat 0.2 (end_ - start)))
  else
    (set_slice operator_mask start (repeat 0.2 (end_ - start)),
     set_slice customer_mask start (repeat 0.8 (end_ - start))).

(** Second loop: linear cross-fade at the start of every frame but the
    first.  For these frames [1 <= start < len(audio)], so [mask[start-1]]
    and [mask[start]] are plain in-range reads. *)
Definition crossfade_frame (hop_length transition_length len : nat)
           (masks : list Q * list Q) (i : nat) : list Q * list Q :=
  let '(operator_mask, customer_mask) := masks in
  let start := (i * hop_length)%nat in
  let end_ := Nat.min (start + transition_length) len in
  let operator_mask :=
    set_slice operator_mask start
      (np_linspace (nth (start - 1) operator_mask 0) (nth start operator_mask 0)
                   (end_ - start)) in
  let customer_mask :=
    set_slice customer_mask start
      (np_linspace (nth (start - 1) customer_mask 0) (nth start customer_mask 0)
                   (end_ - start)) in
  (operator_mask, customer_mask).

(** The min-max normalised frame energies.  When every frame has the same
    energy numpy yields 0/0 = nan for each of them and every comparison
    with the (nan) threshold is False; [Q] yields 0 for each of them and
    [0 > 0] is false as well, so the frame decisions agree. *)
Definition frame_energy (frames : list (list Q)) : result (list Q) :=
  let energy := map (fun f => np_sum (map (fun x => x * x) f)) frames in
  lo <- np_min energy ;;
  hi <- np_max energy ;;
  Ok (map (fun e => (e - lo) / (hi - lo)) energy).

(** The two masks as they stand after the cross-fade loop, before they
    multiply the signal.  [audio] is the normalised signal. *)
Definition speaker_masks (audio : list Q) (sample_rate : Z)
  : result (list Q * list Q) :=
  let frame_length := frame_length_of sample_rate in
  let hop_length := hop_length_of sample_rate in
  frames <- librosa_frame audio frame_length hop_length ;;
  energy <- frame_energy frames ;;
  let len := length audio in
  let fl := Z.to_nat frame_length in
  let hop := Z.to_nat hop_length in
  let zeros := repeat 0 len in
  let threshold := np_mean energy * 1.2 in
  let masks := fold_left (assign_frame energy threshold hop fl len)
                         (seq 0 (length energy)) (zeros, zeros) in
  let transition_length := Z.to_nat (transition_length_of sample_rate) in
  Ok (fold_left (crossfade_frame hop transition_length len)
                (seq 1 (length energy - 1)) masks).

(** [a * b] on arrays of one shape *)
Fixpoint np_mul (a b : list Q) : list Q :=
  match a, b with
  | x :: a', y :: b' => x * y :: np_mul a' b'
  | _, _ => []
  end.

(** Steps after the normalisation of the input (the rest of the [try]
    block). *)
Definition separate_steps (audio : list Q) (sample_rate : Z)
  : result (list Q * list Q * Z) :=
  masks <- speaker_masks audio sample_rate ;;
  let '(operator_mask, customer_mask) := masks in
  operator_audio <- normalize_audio (np_mul audio operator_mask) ;;
  customer_audio <- normalize_audio (np_mul audio customer_mask) ;;
  Ok (operator_audio, customer_audio, sample_rate).

(** [separate_speakers_from_mono] on a 1-d array.  The local name [audio]
    is rebound by [audio = normalize_audio(audio)] inside the [try]; the
    handler returns whatever [audio] is bound to when the exception
    arrives. *)
Definition separate_speakers_from_mono (audio : list Q) (sample_rate : Z)
  : list Q * list Q * Z :=
  match normalize_audio audio with
  | Raise _ => (audio, audio, sample_rate)
  | Ok audio =>
      try_except (separate_steps audio sample_rate)
                 (fun _ => (audio, audio, sample_rate))
  end.

End AudioProcessing.

(** ** Python built-ins shared by emotion_analysis.py and utils.py *)

Module Py.

(** [l[a:b]] with Python's treatment of negative and out-of-range bounds. *)
Definition clip_index (len i : Z) : Z :=
  if (i <? 0)%Z then Z.max (i + len) 0 else Z.min i len.

Definition slice {A : Type} (l : list A) (a b : Z) : list A :=
  let len := Z.of_nat (length l) in
  let a := Z.to_nat (clip_index len a) in
  let b := Z.to_nat (clip_index len b) in
  firstn (b - a) (skipn a l).

(** [range(a, b)] for naturals *)
Definition range (a b : nat) : list nat := seq a (b - a).

(** [x in l] for a list of strings *)
Definition mem (x : string) (l : list string) : bool :=
  existsb (String.eqb x) l.

(** A [dict] with string keys, in insertion order (the order [items()]
    iterates in). *)
Definition dict (V : Type) : Type := list (string * V).

Fixpoint dict_mem {V : Type} (k : string) (d : dict V) : bool :=
  match d with
  | [] => false
  | (k', _) :: d' => String.eqb k' k || dict_mem k d'
  end.

(** [d[k] = f(d[k])] for a key already present (its position is kept) *)
Fixpoint dict_update {V : Type} (k : string) (f : V -> V) (d : dict V) : dict V :=
  match d with
  | [] => []
  | (k', v) :: d' =>
      if String.eqb k' k then (k', f v) :: d' else (k', v) :: dict_update k f d'
  end.

(** [d[k] = v] for a new key (appended) or an old one (position kept) *)
Fixpoint dict_set {V : Type} (k : string) (v : V) (d : dict V) : dict V :=
  match d with
  | [] => [(k, v)]
  | (k', v') :: d' =>
      if String.eqb k' k then (k', v) :: d' else (k', v') :: dict_set k v d'
  end.

(** [max(d.items(), key=lambda x: x[1])[0]]: the first item whose value no
    later item exceeds; ValueError on an empty dict. *)
Definition max_key {V : Type} (gtb : V -> V -> bool) (d : dict V) : result string :=
  match d with
  | [] => Raise ValueError
  | it :: rest =>
      Ok (fst (fold_left (fun best x => if gtb (snd x) (snd best) then x else best)
                         rest it))
  end.

(** [[f(x) for x in l]] where [f] may raise *)
Fixpoint mapM {A B : Type} (f : A -> result B) (l : list A) : result (list B) :=
  match l with
  | [] => Ok []
  | x :: l' => y <- f x ;; ys <- mapM f l' ;; Ok (y :: ys)
  end.

End Py.

(** The three labels of the pipeline. *)
Definition negative : string := "негативные".
Definition joy : string := "радость".
Definition neutral : string := "нейтрально".

(** ** emotion_analysis.py *)

Module EmotionAnalysis.

Import AudioProcessing.

(** One entry of the [features] list. *)
Record feature : Type := {
  energy : Q;
  zero_crossing_rate : Q;
  spectral_centroid : Q;
  spectral_rolloff : Q;
  spectral_bandwidth : Q;
  spectral_flatness : Q;
  mfcc_mean : list Q;
  mfcc_std : list Q
}.

(** numpy reductions that yield nan (with a warning, not an exception) on a
    zero-size array: [None] is nan. *)
Definition nan_mean (a : list Q) : option Q :=
  match a with
  | [] => None
  | _ => Some (np_mean a)
  end.

(** [np.var(a)]: population variance *)
Definition np_var (a : list Q) : option Q :=
  match a with
  | [] => None
  | _ => let m := np_mean a in
         Some (np_mean (map (fun x => (x - m) * (x - m)) a))
  end.

(** [np.diff(a)] *)
Fixpoint np_diff (a : list Q) : list Q :=
  match a with
  | x :: ((y :: _) as a') => (y - x) :: np_diff a'
  | _ => []
  end.

(** Comparisons with a possibly-nan left operand: False on nan. *)
Definition nan_gtb (x : option Q) (y : Q) : bool :=
  match x with Some x => Qgtb x y | None => false end.
Definition nan_ltb (x : option Q) (y : Q) : bool :=
  match x with Some x => Qltb x y | None => false end.

(** The three raw scores of one segment, given its z-scored energy,
    zero-crossing rate and centroid. *)
Definition hit (b : bool) (w : Q) : Q := if b then w else 0.

Definition negative_score_of (f : feature) (norm_energy norm_zcr : Q) : Q :=
  let energy_variance := np_var (mfcc_mean f) in
  let pitch_stability := nan_mean (np_abs (np_diff (mfcc_mean f))) in
  0 + hit (Qgtb norm_energy 1.0) 1.5
    + hit (Qgtb norm_zcr 0.8) 1.5
    + hit (Qgtb (spectral_bandwidth f) 4000) 1
    + hit (nan_gtb energy_variance 0.9) 1
    + hit (nan_gtb pitch_stability 0.7) 1
    + hit (Qgtb (spectral_flatness f) 0.7) 0.8
    + hit (Qgtb (spectral_rolloff f) 6000) 0.8.

Definition joy_score_of (f : feature) (norm_energy norm_centroid : Q) : Q :=
  let pitch_stability := nan_mean (np_abs (np_diff (mfcc_mean f))) in
  0 + hit (Qltb 0.2 norm_energy && Qltb norm_energy 0.8) 1.2
    + hit (Qgtb norm_centroid 0.3) 1.2
    + hit (Qgtb (spectral_rolloff f) 4000) 1
    + hit (nan_ltb pitch_stability 0.3) 1
    + hit (Qltb (spectral_flatness f) 0.3) 1.

Definition neutral_score_of (f : feature) (norm_energy norm_zcr norm_centroid : Q) : Q :=
  let pitch_stability := nan_mean (np_abs (np_diff (mfcc_mean f))) in
  0 + hit (Qltb (Qabs norm_energy) 0.3) 1.2
    + hit (Qltb (Qabs norm_zcr) 0.3) 1.2
    + hit (Qltb (Qabs norm_centroid) 0.3) 1.2
    + hit (nan_ltb pitch_stability 0.2) 1
    + hit (Qgtb (spectral_flatness f) 0.4) 1.

Section Classifier.

(** [np.std] is the square root of the population variance; the square
    root is not rational, so it is a parameter of the model. *)
Variable np_sqrt : Q -> Q.

Definition np_std (a : list Q) : Q :=
  let m := np_mean a in
  np_sqrt (np_mean (map (fun x => (x - m) * (x - m)) a)).

(** Whole-call baseline: mean and standard deviation of a descriptor. *)
Definition zscore (all : list Q) (x : Q) : Q :=
  (x - np_mean all) / (np_std all + 0.000001).

(** Raw scores (negative, joy, neutral) of [f] within the call. *)
Definition raw_scores (features : list feature) (f : feature) : Q * Q * Q :=
  let norm_energy := zscore (map energy features) (energy f) in
  let norm_zcr := zscore (map zero_crossing_rate features) (zero_crossing_rate f) in
  let norm_centroid := zscore (map spectral_centroid features) (spectral_centroid f) in
  (negative_score_of f norm_energy norm_zcr,
   joy_score_of f norm_energy norm_centroid,
   neutral_score_of f norm_energy norm_zcr norm_centroid).

(** Body of the loop for segment [i], [emotions] being the labels emitted
    so far. *)
Definition classify_segment (features : list feature) (emotions : list string)
           (i : nat) (f : feature) : result string :=
  let '(negative_score, joy_score, neutral_score) := raw_scores features f in
  let scores : Py.dict Q :=
    [(negative, negative_score); (joy, joy_score); (neutral, neutral_score)] in
  let scores :=
    if (0 <? i)%nat && Py.dict_mem (last emotions EmptyString) scores
    then Py.dict_update (last emotions EmptyString) (fun v => v + 0.3) scores
    else scores in
  let scores :=
    if Qltb negative_score 5 then Py.dict_set negative 0 scores else scores in
  Py.max_key Qgtb scores.

Definition map_features_to_emotions (features : list feature) : result (list string) :=
  fold_left (fun acc '(i, f) =>
               emotions <- acc ;;
               emotion <- classify_segment features emotions i f ;;
               Ok (emotions ++ [emotion]))
            (combine (seq 0 (length features)) features)
            (Ok []).

End Classifier.

(** Counting dict of a window:
<<
    for emotion in window:
        if emotion in emotion_counts: emotion_counts[emotion] += 1
        else: emotion_counts[emotion] = 1
>> *)
Definition count_step (emotion_counts : Py.dict Z) (emotion : string) : Py.dict Z :=
  if Py.dict_mem emotion emotion_counts
  then Py.dict_update emotion (fun n => (n + 1)%Z) emotion_counts
  else Py.dict_set emotion 1%Z emotion_counts.

Definition most_common (window : list string) : result string :=
  Py.max_key Z.gtb (fold_left count_step window []).

Definition window_at (emotions : list string) (window_size : Z) (i : nat) : list string :=
  let start := Z.max 0 (Z.of_nat i - window_size / 2) in
  let end_ := Z.min (Z.of_nat (length emotions)) (Z.of_nat i + window_size / 2 + 1) in
  Py.slice emotions start end_.

Definition smooth_emotions (emotions : list string) (window_size : Z)
  : result (list string) :=
  if (Z.of_nat (length emotions) <=? window_size)%Z then Ok emotions
  else Py.mapM (fun i => most_common (window_at emotions window_size i))
               (Py.range 0 (length emotions)).

End EmotionAnalysis.

(** ** utils.py *)

Module Utils.

Import AudioProcessing.

(** [count_emotion_sequences]: the loop state is [(count, current_streak)]. *)
Definition streak_step (target_emotions : list string) (min_length : Z)
           (st : Z * Z) (emotion : string) : Z * Z :=
  let '(count, current_streak) := st in
  if Py.mem emotion target_emotions then (count, (current_streak + 1)%Z)
  else
    ((if (current_streak >=? min_length)%Z then count + 1 else count)%Z, 0%Z).

Definition count_emotion_sequences (emotions target_emotions : list string)
           (min_length : Z) : Z :=
  let '(count, current_streak) :=
    fold_left (streak_step target_emotions min_length) emotions (0%Z, 0%Z) in
  if (current_streak >=? min_length)%Z then (count + 1)%Z else count.

(** A row of the DataFrame with columns 'Время', 'Эмоция оператора' and
    'Эмоция клиента' (the default integer index, so [df[col][i]] is the
    i-th row). *)
Record row : Type := {
  time : Q;
  operator_emotion : string;
  customer_emotion : string
}.

Definition DataFrame : Type := list row.

Definition empty_row : row :=
  {| time := 0; operator_emotion := EmptyString; customer_emotion := EmptyString |}.

(** [df[col][i]] for [0 <= i < len(df)] *)
Definition operator_at (df : DataFrame) (i : nat) : string :=
  operator_emotion (nth i df empty_row).
Definition customer_at (df : DataFrame) (i : nat) : string :=
  customer_emotion (nth i df empty_row).
Definition time_at (df : DataFrame) (i : nat) : Q :=
  time (nth i df empty_row).

(** [sum(1 for x in l if p(x))] *)
Definition count_if {A : Type} (p : A -> bool) (l : list A) : Z :=
  Z.of_nat (length (filter p l)).

Definition of_int (n : Z) : Q := inject_Z n.

(** [a / b] on Python ints: true division, ZeroDivisionError when [b] is 0 *)
Definition truediv (a b : Z) : result Q :=
  if (b =? 0)%Z then Raise ZeroDivisionError else Ok (of_int a / of_int b).

(** [calculate_call_quality].  The unused [emotion_match_rate] (a pandas
    mean, which does not raise) is left out. *)
Definition calculate_call_quality (df : DataFrame) : result Q :=
  let len := length df in
  let score := 5.0 in
  let operator_negative :=
    count_emotion_sequences (map operator_emotion df) [negative] 2 in
  let customer_negative :=
    count_emotion_sequences (map customer_emotion df) [negative] 2 in
  let score := score - Qmin 2.0 (of_int operator_negative * 0.3) in
  let score := score - Qmin 1.0 (of_int customer_negative * 0.1) in
  let operator_positive :=
    count_emotion_sequences (map operator_emotion df) [joy] 2 in
  let customer_positive :=
    count_emotion_sequences (map customer_emotion df) [joy] 2 in
  let score := score + Qmin 1.0 (of_int operator_positive * 0.2) in
  let score := score + Qmin 2.0 (of_int customer_positive * 0.4) in
  let positive_match :=
    count_if (fun i => String.eqb (operator_at df i) (customer_at df i)
                       && Py.mem (operator_at df i) [neutral; joy])
             (Py.range 0 len) in
  positive_match_rate <-
    (if (0 <? len)%nat then truediv positive_match (Z.of_nat len) else Ok 0) ;;
  let score := score + Qmin 2.0 (positive_match_rate * 3.0) in
  let negative_mirror :=
    count_if (fun i => String.eqb (customer_at df (i - 1)) negative
                       && String.eqb (operator_at df i) negative)
             (Py.range 1 len) in
  let score := score - Qmin 1.0 (of_int negative_mirror * 0.3) in
  score <-
    (if (10 <? len)%nat then
       let start_segment := Py.slice df 0 (Z.of_nat len / 3) in
       let end_segment := Py.slice df (- Z.of_nat len / 3) (Z.of_nat len) in
       start_customer_negative <-
         truediv (count_if (fun e => String.eqb e negative)
                           (map customer_emotion start_segment))
                 (Z.of_nat (length start_segment)) ;;
       end_customer_positive <-
         truediv (count_if (fun e => Py.mem e [joy; neutral])
                           (map customer_emotion end_segment))
                 (Z.of_nat (length end_segment)) ;;
       if Qgtb start_customer_negative 0.3 && Qgtb end_customer_positive 0.7
       then Ok (score + 2.0) else Ok score
     else Ok score) ;;
  Ok (Qmax 0.0 (Qmin 10.0 score)).

(** [pd.DataFrame({'Время': times, 'Эмоция оператора': ops,
    'Эмоция клиента': cus})]: the constructor raises ValueError unless the
    three columns have one length. *)
Definition make_df (times : list Q) (ops cus : list string) : result DataFrame :=
  if (length times =? length ops)%nat && (length ops =? length cus)%nat
  then Ok (map (fun '(t, (o, c)) =>
                  {| time := t; operator_emotion := o; customer_emotion := c |})
               (combine times (combine ops cus)))
  else Raise ValueError.

(** The dict returned by [extract_key_moments], one field per key:
    'негатив_клиента', 'плохие_ответы', 'хорошие_ответы'. *)
Record key_moments : Type := {
  negative_points : list Q;
  bad_response_points : list Q;
  good_responses : list Q
}.

(** [for i in range(a, len(df)): if cond(i): points.append(df['Время'][i])] *)
Definition collect (df : DataFrame) (a : nat) (cond : nat -> bool) : list Q :=
  fold_left (fun points i => if cond i then points ++ [time_at df i] else points)
            (Py.range a (length df)) [].

Definition extract_key_moments (df : DataFrame) : key_moments :=
  {| negative_points :=
       collect df 1 (fun i => String.eqb (customer_at df i) negative
                              && negb (String.eqb (customer_at df (i - 1)) negative));
     bad_response_points :=
       collect df 1 (fun i => String.eqb (customer_at df (i - 1)) negative
                              && negb (Py.mem (operator_at df i) [neutral; joy]));
     good_responses :=
       collect df 2 (fun i => String.eqb (customer_at df (i - 2)) negative
                              && Py.mem (operator_at df (i - 1)) [neutral; joy]
                              && Py.mem (customer_at df i) [neutral; joy]) |}.

End Utils.

(** ** audio_processing.py, the pydub path *)

Module AudioDecoding.

Import AudioProcessing.

(** [astype(np.float32)] on one integer sample: the nearest number with a
    24-bit significand, halves going to the even significand.  Integers
    below 2^24 in magnitude are kept as they are; of a wider integer the
    low [e] bits are rounded away.  (The samples pydub decodes are 8, 16 or
    32 bits wide, far below the range where float32 overflows.) *)
Definition float32_of_int (n : Z) : Z :=
  let a := Z.abs n in
  if (a <? 2 ^ 24)%Z then n
  else
    let e := (Z.log2 a - 23)%Z in
    let q := (a / 2 ^ e)%Z in
    let r := (a mod 2 ^ e)%Z in
    let half := (2 ^ (e - 1))%Z in
    let q := if (r <? half)%Z then q
             else if (half <? r)%Z then (q + 1)%Z
             else if Z.even q then q else (q + 1)%Z in
    (Z.sgn n * (q * 2 ^ e))%Z.

(** [samples.astype(np.float32) / 32768.0] on one integer sample: the
    conversion rounds, the division by a power of two is exact. *)
Definition to_float (sample : Z) : Q := inject_Z (float32_of_int sample) / 32768.

(** [samples.reshape((-1, 2))] on a 1-d array, as its two columns
    [[:, 0]] and [[:, 1]]; numpy raises ValueError when the size is odd. *)
Fixpoint reshape_columns (samples : list Z) : result (list Z * list Z) :=
  match samples with
  | [] => Ok ([], [])
  | [_] => Raise ValueError
  | l :: r :: rest =>
      cols <- reshape_columns rest ;;
      Ok (l :: fst cols, r :: snd cols)
  end.

(** [process_with_pydub], given what [pydub.AudioSegment.from_file] decoded:
    the interleaved integer samples, the frame rate and the channel count. *)
Definition process_with_pydub (samples : list Z) (frame_rate channels : Z)
  : result (list Q * list Q * Z) :=
  if (channels =? 2)%Z then
    cols <- reshape_columns samples ;;
    let operator_audio := map to_float (fst cols) in
    let customer_audio := map to_float (snd cols) in
    Ok (operator_audio, customer_audio, frame_rate)
  else
    Ok (separate_speakers_from_mono (map to_float samples) frame_rate).

End AudioDecoding.

(** ** emotion_analysis.py, statistics, recogniser mapping and segmentation *)

Module EmotionStatistics.

Import AudioProcessing EmotionAnalysis Utils.

(** [get_emotion_statistics]: the counting loop, then
    [{emotion: count/total for emotion, count in emotion_counts.items()}]. *)
Definition get_emotion_statistics (emotions : list string) : result (Py.dict Q) :=
  let emotion_counts := fold_left count_step emotions [] in
  let total := Z.of_nat (length emotions) in
  Py.mapM (fun item : string * Z =>
             share <- truediv (snd item) total ;;
             Ok (fst item, share))
          emotion_counts.

(** [get_dominant_emotion] *)
Definition get_dominant_emotion (emotions : list string) : result string :=
  Py.max_key Z.gtb (fold_left count_step emotions []).

(** [d.get(k, default)] *)
Fixpoint dict_get {V : Type} (k : string) (default : V) (d : Py.dict V) : V :=
  match d with
  | [] => default
  | (k', v) :: d' => if String.eqb k' k then v else dict_get k default d'
  end.

(** The table of [EmotionAnalyzer._map_emotions]. *)
Definition emotion_mapping : Py.dict string :=
  [("anger"%string, negative);
   ("disgust"%string, negative);
   ("fear"%string, negative);
   ("happiness"%string, joy);
   ("sadness"%string, negative);
   ("surprise"%string, neutral);
   ("neutral"%string, neutral)].

(** [EmotionAnalyzer._map_emotions], on the recogniser's dict of scores (an
    empty dict is falsy). *)
Definition _map_emotions (emotions : Py.dict Q) : result (list string) :=
  match emotions with
  | [] => Ok [neutral]
  | _ =>
      dominant_emotion <- Py.max_key Qgtb emotions ;;
      let mapped_emotion := dict_get dominant_emotion neutral emotion_mapping in
      Ok [mapped_emotion]
  end.

(** [['нейтрально'] * (len(audio) // sample_rate)]: floor division, and a
    list times a non-positive count is empty. *)
Definition neutral_labels (audio_len sample_rate : Z) : result (list string) :=
  if (sample_rate =? 0)%Z then Raise ZeroDivisionError
  else Ok (repeat neutral (Z.to_nat (audio_len / sample_rate))).

(** [EmotionAnalyzer.analyze_emotions].  The recogniser belongs to the
    aniemore package and works through a temporary file: [recogniser] is
    [None] when it could not be initialised, and otherwise the outcome of
    writing the file and recognising it; [unlink] is the outcome of
    removing the file afterwards. *)
Definition analyze_emotions (recogniser : option (result (Py.dict Q)))
           (unlink : result unit) (audio_len sample_rate : Z)
  : result (list string) :=
  match recogniser with
  | None => neutral_labels audio_len sample_rate
  | Some recognised =>
      match (voice_emotions <- recognised ;;
             emotions <- _map_emotions voice_emotions ;;
             _ <- unlink ;;
             Ok emotions) with
      | Ok emotions => Ok emotions
      | Raise _ => neutral_labels audio_len sample_rate
      end
  end.

(** The segments [extract_features] analyses: one second long, half a
    second apart.  [int(x / y)] truncates the true quotient towards zero
    and raises ZeroDivisionError for [y = 0]. *)
Definition segment_bounds (len sample_rate : Z) (i : Z) : Z * Z :=
  let window_size := sample_rate in
  let hop_length := (window_size / 2)%Z in
  let start := (i * hop_length)%Z in
  (start, Z.min (start + window_size) len).

Definition segments (audio : list Q) (sample_rate : Z) : result (list (list Q)) :=
  let len := Z.of_nat (length audio) in
  let window_size := sample_rate in
  let hop_length := (window_size / 2)%Z in
  if (hop_length =? 0)%Z then Raise ZeroDivisionError else
  let num_segments :=
    Z.max 1 (Z.quot (len - window_size) hop_length + 1) in
  Ok (fold_left
        (fun segs i =>
           let '(start, end_) := segment_bounds len sample_rate (Z.of_nat i) in
           if (end_ - start <? window_size / 2)%Z then segs
           else segs ++ [Py.slice audio start end_])
        (Py.range 0 (Z.to_nat num_segments)) []).

Section Features.

(** The librosa descriptors of one segment (rms, zero-crossing rate,
    centroid, roll-off, bandwidth, flatness, MFCC mean and deviation) are
    computed by librosa, not by this repository: a parameter, which may
    raise. *)
Variable librosa_features : list Q -> Z -> result feature.

Definition extract_features (audio : list Q) (sample_rate : Z)
  : result (list feature) :=
  segs <- segments audio sample_rate ;;
  Py.mapM (fun segment => librosa_features segment sample_rate) segs.

End Features.

End EmotionStatistics.

(** ** utils.py, the predominant emotion *)

Module UtilsStatistics.

(** The counting loop of [get_predominant_emotion]:
<<
    if emotion not in emotion_counts: emotion_counts[emotion] = 0
    emotion_counts[emotion] += 1
>> *)
Definition predominant_step (emotion_counts : Py.dict Z) (emotion : string) : Py.dict Z :=
  let emotion_counts :=
    if negb (Py.dict_mem emotion emotion_counts)
    then Py.dict_set emotion 0%Z emotion_counts else emotion_counts in
  Py.dict_update emotion (fun n => (n + 1)%Z) emotion_counts.

Definition get_predominant_emotion (emotions : list string) : result string :=
  Py.max_key Z.gtb (fold_left predominant_step emotions []).

End UtilsStatistics.

Import AudioProcessing EmotionAnalysis Utils.
Import AudioDecoding EmotionStatistics UtilsStatistics.

(** * Specification-side definitions *)

(** ** Signals *)

(** Equality of signals sample by sample, and of outcomes. *)
Definition signal_eq (a b : list Q) : Prop := Forall2 Qeq a b.

Definition outcome_eq (r1 r2 : result (list Q)) : Prop :=
  match r1, r2 with
  | Ok a, Ok b => signal_eq a b
  | Raise e1, Raise e2 => e1 = e2
  | _, _ => False
  end.

(** [m] is the largest element of [l] (up to [==]). *)
Definition is_max (m : Q) (l : list Q) : Prop :=
  (forall x, In x l -> x <= m) /\ (exists x, In x l /\ x == m).

(** ** Diarization masks *)

(** Up to position [c] the two masks sum to 1; from [c] on both are still
    at their initial 0. *)
Definition partition_upto (len c : nat) (masks : list Q * list Q) : Prop :=
  length (fst masks) = len /\ length (snd masks) = len /\
  forall k, ((k < c)%nat -> nth k (fst masks) 0 + nth k (snd masks) 0 == 1)
            /\ ((c <= k)%nat -> nth k (fst masks) 0 == 0 /\ nth k (snd masks) 0 == 0).

(** Position reached after the first [i] frames have been assigned. *)
Definition reached (hop fl i : nat) : nat :=
  match i with O => O | S j => (j * hop + fl)%nat end.

(** First sample position past the last analysis frame. *)
Definition covered_end (len : nat) (sample_rate : Z) : nat :=
  let fl := Z.to_nat (frame_length_of sample_rate) in
  let hop := Z.to_nat (hop_length_of sample_rate) in
  ((n_frames len fl hop - 1) * hop + fl)%nat.

(** A 48-sample signal at 1 kHz: three frames of 25 samples, hop 10,
    cross-fade 5.  The frame energies are 20.05, 10.15 and 0.25, that is
    1, 0.5 and 0 after min-max scaling, against a threshold of 0.6: only
    the first frame is the loud one, and no frame is near the threshold. *)
Definition demo_audio : list Q := repeat 1 20 ++ repeat 0.1 28.

(** ** Streaks *)

(** The maximal runs of target labels: the pieces obtained by cutting the
    sequence at every label outside the target set.  Two cuts in a row, or
    a cut at either end, leave an empty piece. *)
Fixpoint maximal_runs (targets : list string) (emotions : list string)
  : list (list string) :=
  match emotions with
  | [] => [[]]
  | e :: rest =>
      match maximal_runs targets rest with
      | r :: rs => if Py.mem e targets then (e :: r) :: rs else [] :: r :: rs
      | [] => []
      end
  end.

(** Runs and the labels that separate them, put back together. *)
Fixpoint interleave (runs : list (list string)) (seps : list string) : list string :=
  match runs, seps with
  | r :: rs, s :: ss => r ++ s :: interleave rs ss
  | r :: _, [] => r
  | [], _ => []
  end.

(** A run counts when it has at least [min_length] labels. *)
Definition long_enough (min_length : Z) (run : list string) : bool :=
  (min_length <=? Z.of_nat (length run))%Z.

Definition nonempty (run : list string) : bool :=
  match run with [] => false | _ => true end.

(** Number of streaks, as the specification words it. *)
Definition streak_count_spec (emotions targets : list string) (min_length : Z) : Z :=
  Z.of_nat (length (filter (long_enough min_length) (maximal_runs targets emotions))).

(** The check after the loop, on the loop state. *)
Definition finish (min_length : Z) (st : Z * Z) : Z :=
  let '(count, current_streak) := st in
  if (current_streak >=? min_length)%Z then (count + 1)%Z else count.

(** ** Key moments *)

(** The de-escalation pattern at index [i], as the specification words it:
    customer negative two segments back, operator neutral or joyful one
    segment back, customer neutral or joyful now. *)
Definition calm (label : string) : Prop := label = neutral \/ label = joy.

Definition deescalated (df : DataFrame) (i : nat) : Prop :=
  customer_at df (i - 2) = negative
  /\ calm (operator_at df (i - 1))
  /\ calm (customer_at df i).

Definition calmb (label : string) : bool :=
  String.eqb label neutral || String.eqb label joy.

Definition deescalatedb (df : DataFrame) (i : nat) : bool :=
  String.eqb (customer_at df (i - 2)) negative
  && calmb (operator_at df (i - 1))
  && calmb (customer_at df i).

(** Seven segments: customer negative at index 3 only, operator joyful at
    index 4, timestamps 0, 10, ..., 60. *)
Definition demo_call : DataFrame :=
  map (fun i => {| time := inject_Z (Z.of_nat (10 * i));
                   operator_emotion := if (i =? 4)%nat then joy else neutral;
                   customer_emotion := if (i =? 3)%nat then negative else neutral |})
      (seq 0 7).

(** ** Windows and their most frequent label *)

(** Number of occurrences of a label in a window. *)
Definition occurrences (label : string) (window : list string) : nat :=
  count_occ string_dec window label.

(** The labels of a window in the order they are first met. *)
Definition see (seen : list string) (e : string) : list string :=
  if Py.mem e seen then seen else seen ++ [e].

Definition first_seen (window : list string) : list string :=
  fold_left see window [].

(** The dict whose keys are [keys], in this order, with values [value]. *)
Definition tabulate (value : string -> Z) (keys : list string) : Py.dict Z :=
  map (fun k => (k, value k)) keys.

(** One step of [max] over the items of a counting dict: a later item
    replaces the best one only when strictly greater. *)
Definition pick (best x : string * Z) : string * Z :=
  if (snd x >? snd best)%Z then x else best.

(** The most frequent label of a window, ties going to the label met first:
    [label] occurs in the window, every label met before its first
    occurrence is strictly less frequent, every other label is at most as
    frequent. *)
Definition most_frequent_first (window : list string) (label : string) : Prop :=
  exists pre post,
    window = pre ++ label :: post
    /\ ~ In label pre
    /\ (forall l, In l pre -> (occurrences l window < occurrences label window)%nat)
    /\ (forall l, In l post -> (occurrences l window <= occurrences label window)%nat).

(** The centred window of size 3 around position [i], clipped at both ends
    of the sequence: the labels at positions [i-1], [i], [i+1] that exist. *)
Definition centered_window (emotions : list string) (i : nat) : list string :=
  map (fun j => nth j emotions EmptyString)
      (seq (i - 1) (Nat.min (i + 2) (length emotions) - (i - 1))).

(** ** Classifier scores *)

(** Final scores as the specification words them: +0.3 for the label of the
    preceding segment, and a negative score forced to 0 when the raw
    negative score is below 5. *)
Definition with_bonus (previous : option string) (label : string) (score : Q) : Q :=
  match previous with
  | Some p => if String.eqb p label then score + 0.3 else score
  | None => score
  end.

Definition final_negative (previous : option string) (raw : Q) : Q :=
  if Qltb raw 5 then 0 else with_bonus previous negative raw.

(** [label] has the maximum of the three final scores, the first maximum in
    the order negative, joy, neutral. *)
Definition wins (fn fj fu : Q) (label : string) : Prop :=
  (label = negative /\ fj <= fn /\ fu <= fn)
  \/ (label = joy /\ fn < fj /\ fu <= fj)
  \/ (label = neutral /\ fn < fu /\ fj < fu).

(** The label of the segment before position [i] of [emotions]. *)
Definition previous_of (emotions : list string) (i : nat) : option string :=
  match i with
  | O => None
  | S j => Some (nth j emotions EmptyString)
  end.

(** Default for positions outside the feature list. *)
Definition no_feature : feature :=
  {| energy := 0; zero_crossing_rate := 0; spectral_centroid := 0;
     spectral_rolloff := 0; spectral_bandwidth := 0; spectral_flatness := 0;
     mfcc_mean := []; mfcc_std := [] |}.

(** A square root that is exact on squares of rationals, to run the
    classifier on an example. *)
Definition exact_sqrt (q : Q) : Q :=
  let r := Qred q in
  inject_Z (Z.sqrt (Qnum r)) / inject_Z (Z.sqrt (Z.pos (Qden r))).

(** Four segments alternating between a quiet and a loud, bright, noisy
    one. *)
Definition demo_segment (loud : bool) : feature :=
  {| energy := if loud then 3 else 1;
     zero_crossing_rate := if loud then 3 else 1;
     spectral_centroid := if loud then 3 else 1;
     spectral_rolloff := 7000;
     spectral_bandwidth := 5000;
     spectral_flatness := 0.8;
     mfcc_mean := [0; 2; 0; 2];
     mfcc_std := [] |}.

Definition demo_features : list feature :=
  [demo_segment false; demo_segment true; demo_segment false; demo_segment true].

(** * Properties *)

(** ** Comparisons *)

Lemma Qgtb_spec (x y : Q) : Qgtb x y = true <-> y < x.
Proof.
  unfold Qgtb. rewrite Qlt_alt. destruct (y ?= x); split; congruence.
Qed.

Lemma Qgtb_false (x y : Q) : Qgtb x y = false <-> x <= y.
Proof.
  split; intro H.
  - apply Qnot_lt_le. intro L. apply Qgtb_spec in L. congruence.
  - destruct (Qgtb x y) eqn:E; trivial.
    apply Qgtb_spec in E. exfalso. exact (Qlt_not_le _ _ E H).
Qed.

Lemma Qltb_spec (x y : Q) : Qltb x y = true <-> x < y.
Proof. unfold Qltb. apply Qgtb_spec. Qed.

(** ** normalize_audio *)

Lemma signal_eq_refl (a : list Q) : signal_eq a a.
Proof. induction a; constructor; [reflexivity | assumption]. Qed.

Lemma fold_Qmax_is_max (xs : list Q) (x : Q) :
  is_max (fold_left Qmax xs x) (x :: xs).
Proof.
  revert x. induction xs as [|y ys IH]; intro x; simpl.
  - split.
    + intros z [<-|[]]. apply Qle_refl.
    + exists x. split; [now left | reflexivity].
  - destruct (IH (Qmax x y)) as [Hle [z [Hin Hz]]]. split.
    + intros w [<-|[<-|Hw]].
      * apply Qle_trans with (Qmax x y); [apply Q.le_max_l | apply Hle; now left].
      * apply Qle_trans with (Qmax x y); [apply Q.le_max_r | apply Hle; now left].
      * apply Hle. now right.
    + destruct Hin as [<-|Hin].
      * destruct (Q.max_dec x y) as [E|E].
        -- exists x. split; [now left|]. rewrite <- Hz. symmetry. exact E.
        -- exists y. split; [right; now left|]. rewrite <- Hz. symmetry. exact E.
      * exists z. split; [right; now right | exact Hz].
Qed.

Lemma np_max_is_max (l : list Q) (m : Q) : np_max l = Ok m -> is_max m l.
Proof.
  destruct l as [|x xs]; simpl; [discriminate|].
  intros [= <-]. apply fold_Qmax_is_max.
Qed.

Lemma is_max_unique (l : list Q) (m1 m2 : Q) :
  is_max m1 l -> is_max m2 l -> m1 == m2.
Proof.
  intros [H1 [x1 [I1 E1]]] [H2 [x2 [I2 E2]]].
  apply Qle_antisym.
  - rewrite <- E1. apply H2, I1.
  - rewrite <- E2. apply H1, I2.
Qed.

Lemma np_max_total (l : list Q) : l <> [] -> exists m, np_max l = Ok m.
Proof. destruct l; [congruence|]. intros _. eexists. reflexivity. Qed.

Lemma np_abs_nonempty (l : list Q) : l <> [] -> np_abs l <> [].
Proof. destruct l; simpl; congruence. Qed.

(** Dividing by the peak [m > 0] leaves a signal whose peak is 1. *)
Lemma scaled_peak (audio : list Q) (m : Q) :
  0 < m -> is_max m (np_abs audio) ->
  is_max 1 (np_abs (map (fun x => x / m) audio)).
Proof.
  intros Hm [Hle [a [Hin Ha]]]. unfold np_abs in *. split.
  - intros y Hy. apply in_map_iff in Hy as [z [<- Hz]].
    apply in_map_iff in Hz as [x [<- Hx]].
    assert (Qabs x <= m) as Hx' by (apply Hle, in_map, Hx).
    unfold Qdiv. rewrite Qabs_Qmult, Qabs_Qinv, (Qabs_pos m) by now apply Qlt_le_weak.
    apply Qle_shift_div_r; [exact Hm|]. now rewrite Qmult_1_l.
  - apply in_map_iff in Hin as [x [Hx Hin]].
    exists (Qabs (x / m)). split.
    + apply in_map. apply (in_map (fun x => x / m)). exact Hin.
    + unfold Qdiv. rewrite Qabs_Qmult, Qabs_Qinv, (Qabs_pos m) by now apply Qlt_le_weak.
      rewrite Hx, Ha. apply Qmult_inv_r. intro E. rewrite E in Hm.
      exact (Qlt_irrefl _ Hm).
Qed.

Lemma div_by_one (l : list Q) (m : Q) :
  m == 1 -> signal_eq (map (fun x => x / m) l) l.
Proof.
  intro E. induction l; constructor; [|assumption].
  rewrite E. unfold Qdiv. setoid_replace (/ 1) with 1 by reflexivity. apply Qmult_1_r.
Qed.

(** A signal whose peak is 1 is left unchanged by [normalize_audio]. *)
Lemma normalize_peak_one (out : list Q) :
  is_max 1 (np_abs out) ->
  exists out', normalize_audio out = Ok out' /\ signal_eq out' out.
Proof.
  intro H. unfold normalize_audio.
  destruct (np_max (np_abs out)) as [m|e] eqn:E.
  - assert (m == 1) as Hm by (eapply is_max_unique; [apply np_max_is_max, E | exact H]).
    simpl. assert (Qgtb m 0 = true) as -> by (apply Qgtb_spec; rewrite Hm; reflexivity).
    eexists. split; [reflexivity | now apply div_by_one].
  - destruct H as [_ [x [Hin _]]]. destruct (np_abs out); [destruct Hin | discriminate].
Qed.

Lemma zero_peak_all_zero (l : list Q) (m : Q) :
  is_max m (np_abs l) -> m <= 0 -> Forall (fun x => x == 0) l.
Proof.
  intros [Hle _] Hm. apply Forall_forall. intros x Hx.
  assert (Qabs x <= 0) as H.
  { apply Qle_trans with m; [|exact Hm]. apply Hle. unfold np_abs. now apply in_map. }
  apply Qabs_Qle_condition in H. destruct H as [H1 H2].
  apply Qle_antisym; [exact H2 | exact H1].
Qed.

Lemma all_zero_peak (l : list Q) (m : Q) :
  Forall (fun x => x == 0) l -> is_max m (np_abs l) -> m == 0.
Proof.
  intros Hz [_ [a [Hin Ha]]]. unfold np_abs in Hin.
  apply in_map_iff in Hin as [x [<- Hx]].
  rewrite Forall_forall in Hz. rewrite <- Ha, (Hz x Hx). reflexivity.
Qed.

(** C10: normalize is idempotent over exact rationals.  The outcome of
    normalising twice equals, sample by sample, the outcome of normalising
    once (on the empty signal both raise the same ValueError); a non-empty
    signal is always normalised; a non-empty all-zero signal is a fixed
    point; and every output of normalize is a fixed point, with peak
    absolute sample 1 unless the input was all-zero. *)
Theorem normalize_audio_idempotent (signal : list Q) :
  outcome_eq (out <- normalize_audio signal ;; normalize_audio out)
             (normalize_audio signal)
  /\ (signal <> [] -> exists out, normalize_audio signal = Ok out)
  /\ (signal <> [] -> Forall (fun x => x == 0) signal ->
      normalize_audio signal = Ok signal)
  /\ (forall out, normalize_audio signal = Ok out ->
      outcome_eq (normalize_audio out) (Ok out)
      /\ (~ Forall (fun x => x == 0) signal -> is_max 1 (np_abs out))).
Proof.
  assert (forall out, normalize_audio signal = Ok out ->
      outcome_eq (normalize_audio out) (Ok out)
      /\ (~ Forall (fun x => x == 0) signal -> is_max 1 (np_abs out))) as Hfix.
  { intros out. unfold normalize_audio at 1.
    destruct (np_max (np_abs signal)) as [m|e] eqn:E; simpl; [|discriminate].
    pose proof (np_max_is_max _ _ E) as Hmax.
    destruct (Qgtb m 0) eqn:G; intros [= <-].
    - apply Qgtb_spec in G.
      pose proof (scaled_peak signal m G Hmax) as Hone.
      split; [|intros _; exact Hone].
      destruct (normalize_peak_one _ Hone) as [out' [-> Heq]]. exact Heq.
    - apply Qgtb_false in G. split.
      + unfold normalize_audio. rewrite E. simpl.
        assert (Qgtb m 0 = false) as -> by now apply Qgtb_false.
        apply signal_eq_refl.
      + intro Hnz. exfalso. apply Hnz. eapply zero_peak_all_zero; eassumption. }
  split; [|split; [|split]].
  - destruct (normalize_audio signal) as [out|e] eqn:E; simpl; [|reflexivity].
    destruct (Hfix out eq_refl) as [H _].
    destruct (normalize_audio out); simpl in *; [exact H | destruct H].
  - intro Hne. unfold normalize_audio.
    destruct (np_max_total (np_abs signal) (np_abs_nonempty _ Hne)) as [m ->].
    simpl. destruct (Qgtb m 0); eexists; reflexivity.
  - intros Hne Hz. unfold normalize_audio.
    destruct (np_max_total (np_abs signal) (np_abs_nonempty _ Hne)) as [m E].
    rewrite E. simpl.
    pose proof (all_zero_peak _ _ Hz (np_max_is_max _ _ E)) as Hm.
    assert (Qgtb m 0 = false) as -> by (apply Qgtb_false; rewrite Hm; apply Qle_refl).
    reflexivity.
  - exact Hfix.
Qed.

Lemma normalize_audio_idempotent_witness :
  (exists out, normalize_audio [0.5; -0.25; 0.125] = Ok out
               /\ outcome_eq (normalize_audio out) (Ok out)
               /\ is_max 1 (np_abs out))
  /\ normalize_audio [0; 0] = Ok [0; 0].
Proof.
  split.
  - destruct (normalize_audio_idempotent [0.5; -0.25; 0.125]) as [_ [H2 [_ H4]]].
    destruct H2 as [out E]; [discriminate|].
    exists out. split; [exact E|].
    destruct (H4 out E) as [Hfix Hpeak]. split; [exact Hfix|].
    apply Hpeak. intro Hz. inversion Hz as [|x l Hx Hl]. discriminate Hx.
  - destruct (normalize_audio_idempotent [0; 0]) as [_ [_ [H3 _]]].
    apply H3; [discriminate|]. repeat constructor.
Defined.

(** ** Slice assignment and linspace *)

Lemma set_slice_length (mask : list Q) (start : nat) (vals : list Q) :
  length (set_slice mask start vals) = length mask.
Proof.
  revert start vals. induction mask as [|m ms IH]; intros start vals; simpl; [reflexivity|].
  destruct start; simpl; [|now rewrite IH].
  destruct vals; simpl; [reflexivity | now rewrite IH].
Qed.

Lemma nth_set_slice_inside (mask : list Q) (start : nat) (vals : list Q) (k : nat) :
  (start <= k)%nat -> (k < start + length vals)%nat -> (k < length mask)%nat ->
  nth k (set_slice mask start vals) 0 = nth (k - start) vals 0.
Proof.
  revert start vals k. induction mask as [|m ms IH]; intros start vals k Hs Hv Hk;
    simpl in Hk; [lia|].
  destruct start as [|s]; simpl.
  - destruct vals as [|v vs]; simpl in Hv; [lia|].
    destruct k as [|k]; simpl; [reflexivity|].
    rewrite IH by (simpl; lia). now rewrite Nat.sub_0_r.
  - destruct k as [|k]; [lia|]. simpl. apply IH; lia.
Qed.

Lemma nth_set_slice_outside (mask : list Q) (start : nat) (vals : list Q) (k : nat) :
  (k < start)%nat \/ (start + length vals <= k)%nat ->
  nth k (set_slice mask start vals) 0 = nth k mask 0.
Proof.
  revert start vals k. induction mask as [|m ms IH]; intros start vals k H; simpl.
  - reflexivity.
  - destruct start as [|s].
    + destruct vals as [|v vs]; [reflexivity|].
      destruct k as [|k]; simpl in *; [lia|]. apply IH. right. simpl. lia.
    + destruct k as [|k]; simpl; [reflexivity|]. apply IH. lia.
Qed.

Lemma np_linspace_length (a b : Q) (num : nat) : length (np_linspace a b num) = num.
Proof.
  destruct num as [|[|n]]; simpl; try reflexivity.
  now rewrite length_map, length_seq.
Qed.

Lemma inject_nat_nonzero (n : nat) : ~ inject_Z (Z.of_nat (S n)) == 0.
Proof.
  unfold Qeq, inject_Z. simpl. lia.
Qed.

(** Two ramps whose end points are complementary are complementary at
    every sample. *)
Lemma np_linspace_complement (a b a' b' : Q) (num j : nat) :
  a + a' == 1 -> b + b' == 1 -> (j < num)%nat ->
  nth j (np_linspace a b num) 0 + nth j (np_linspace a' b' num) 0 == 1.
Proof.
  intros Ha Hb Hj. destruct num as [|[|n]]; [lia| |].
  - destruct j; [|lia]. simpl. exact Ha.
  - unfold np_linspace.
    set (f := fun k : nat => a + inject_Z (Z.of_nat k) * ((b - a) / inject_Z (Z.of_nat (S n)))).
    set (g := fun k : nat => a' + inject_Z (Z.of_nat k) * ((b' - a') / inject_Z (Z.of_nat (S n)))).
    rewrite (nth_indep _ 0 (f O)) by (rewrite length_map, length_seq; lia).
    rewrite (nth_indep (map g _) 0 (g O)) by (rewrite length_map, length_seq; lia).
    rewrite !map_nth, !seq_nth by lia. simpl Nat.add. unfold f, g.
    pose proof (inject_nat_nonzero n) as Hn.
    setoid_replace b' with (1 - b) by (rewrite <- Hb; ring).
    setoid_replace a' with (1 - a) by (rewrite <- Ha; ring).
    field. exact Hn.
Qed.

(** ** The soft partition of the mono diarization masks *)

Section MaskInvariant.

Variables (len hop fl trans : nat).

Lemma partition_zeros : partition_upto len 0 (repeat 0 len, repeat 0 len).
Proof.
  unfold partition_upto; simpl. rewrite repeat_length. repeat split; try lia.
  all: rewrite nth_repeat; reflexivity.
Qed.

Lemma nth_repeat_const (c : Q) (n j : nat) : (j < n)%nat -> nth j (repeat c n) 0 = c.
Proof.
  intro H. rewrite (nth_indep _ 0 c) by (rewrite repeat_length; lia).
  apply nth_repeat.
Qed.

Lemma assign_frame_partition (energy : list Q) (threshold : Q)
      (masks : list Q * list Q) (c i : nat) :
  partition_upto len c masks ->
  (i * hop <= c)%nat -> (c <= i * hop + fl)%nat -> (i * hop + fl <= len)%nat ->
  partition_upto len (i * hop + fl) (assign_frame energy threshold hop fl len masks i).
Proof.
  intros [Lo [Lc H]] Hs Hc Hl. destruct masks as [op cu]. simpl in Lo, Lc, H.
  unfold assign_frame. rewrite Nat.min_l by lia.
  replace (i * hop + fl - i * hop)%nat with fl by lia.
  assert (forall x y : Q, x + y == 1 ->
            partition_upto len (i * hop + fl)
              (set_slice op (i * hop) (repeat x fl), set_slice cu (i * hop) (repeat y fl)))
    as Hxy.
  { intros x y Exy. unfold partition_upto; simpl.
    rewrite !set_slice_length. repeat split; trivial.
    - intro Hk. destruct (Nat.lt_ge_cases k (i * hop)) as [Hlt|Hge].
      + rewrite !nth_set_slice_outside by lia. apply H. lia.
      + rewrite !nth_set_slice_inside by (rewrite ?repeat_length; lia).
        rewrite !nth_repeat_const by lia. exact Exy.
    - rewrite nth_set_slice_outside by (rewrite repeat_length; lia). apply H. lia.
    - rewrite nth_set_slice_outside by (rewrite repeat_length; lia). apply H. lia. }
  destruct (Qgtb (nth i energy 0) threshold); apply Hxy; reflexivity.
Qed.

Lemma crossfade_frame_partition (masks : list Q * list Q) (c i : nat) :
  partition_upto len c masks ->
  (1 <= i * hop)%nat -> (i * hop < c)%nat -> (i * hop + trans <= c)%nat -> (c <= len)%nat ->
  partition_upto len c (crossfade_frame hop trans len masks i).
Proof.
  intros [Lo [Lc H]] H1 Hs Ht Hl. destruct masks as [op cu]. simpl in Lo, Lc, H.
  unfold crossfade_frame. rewrite Nat.min_l by lia.
  replace (i * hop + trans - i * hop)%nat with trans by lia.
  unfold partition_upto; simpl. rewrite !set_slice_length. repeat split; trivial.
  - intro Hk.
    destruct (Nat.lt_ge_cases k (i * hop)) as [Hlt|Hge];
      [|destruct (Nat.lt_ge_cases k (i * hop + trans)) as [Hin|Hout]].
    + rewrite !nth_set_slice_outside by lia. apply H. lia.
    + rewrite !nth_set_slice_inside by (rewrite ?np_linspace_length; lia).
      apply np_linspace_complement; [apply H; lia | apply H; lia | lia].
    + rewrite !nth_set_slice_outside by (rewrite np_linspace_length; lia). apply H. lia.
  - rewrite nth_set_slice_outside by (rewrite np_linspace_length; lia). apply H. lia.
  - rewrite nth_set_slice_outside by (rewrite np_linspace_length; lia). apply H. lia.
Qed.

Hypothesis hop_le_fl : (hop <= fl)%nat.

Lemma assign_loop_partition (energy : list Q) (threshold : Q) (n a : nat)
      (masks : list Q * list Q) :
  partition_upto len (reached hop fl a) masks ->
  (a + n = 0 \/ (a + n - 1) * hop + fl <= len)%nat ->
  partition_upto len (reached hop fl (a + n))
    (fold_left (assign_frame energy threshold hop fl len) (seq a n) masks).
Proof.
  revert a masks. induction n as [|n IH]; intros a masks Hinv Hlen; simpl.
  - now rewrite Nat.add_0_r.
  - replace (a + S n)%nat with (S a + n)%nat in * by lia.
    apply IH; [|exact Hlen].
    assert (a * hop + fl <= len)%nat as Ha.
    { destruct Hlen as [Hlen|Hlen]; [lia|].
      replace (S a + n - 1)%nat with (a + n)%nat in Hlen by lia. nia. }
    simpl reached. apply assign_frame_partition with (c := reached hop fl a); trivial.
    + destruct a; simpl; lia.
    + destruct a; simpl; lia.
Qed.

Hypothesis hop_pos : (1 <= hop)%nat.
Hypothesis fl_pos : (1 <= fl)%nat.
Hypothesis trans_le_fl : (trans <= fl)%nat.

Lemma crossfade_loop_partition (n a c : nat) (masks : list Q * list Q) :
  partition_upto len c masks -> (1 <= a)%nat ->
  (n = 0 \/ (a + n - 1) * hop + fl <= c)%nat -> (c <= len)%nat ->
  partition_upto len c (fold_left (crossfade_frame hop trans len) (seq a n) masks).
Proof.
  revert a masks. induction n as [|n IH]; intros a masks Hinv Ha Hc Hl; simpl.
  - exact Hinv.
  - destruct Hc as [Hc|Hc]; [lia|].
    assert (a * hop + fl <= c)%nat as Hac by nia.
    apply IH; [|lia| |exact Hl].
    + apply crossfade_frame_partition; trivial; nia.
    + destruct n; [now left|right].
      replace (S a + S n - 1)%nat with (a + S (S n) - 1)%nat by lia. exact Hc.
Qed.

End MaskInvariant.

Lemma frame_lengths_ordered (sample_rate : Z) :
  (1 <= hop_length_of sample_rate)%Z ->
  (hop_length_of sample_rate <= frame_length_of sample_rate)%Z
  /\ (0 <= transition_length_of sample_rate <= frame_length_of sample_rate)%Z.
Proof.
  unfold hop_length_of, frame_length_of, transition_length_of. intro H.
  assert (0 <= sample_rate)%Z as Hsr.
  { destruct (Z.lt_ge_cases sample_rate 0) as [Hneg|]; [|assumption].
    assert (sample_rate * 10 ÷ 1000 <= 0 ÷ 1000)%Z by (apply Z.quot_le_mono; lia).
    rewrite Z.quot_0_l in *; lia. }
  repeat split.
  - apply Z.quot_le_mono; lia.
  - apply Z.quot_pos; lia.
  - apply Z.quot_le_mono; lia.
Qed.

Lemma librosa_frame_ok (x : list Q) (frame_length hop_length : Z) (frames : list (list Q)) :
  librosa_frame x frame_length hop_length = Ok frames ->
  (frame_length <= Z.of_nat (length x))%Z /\ (1 <= hop_length)%Z
  /\ length frames
     = n_frames (length x) (Z.to_nat frame_length) (Z.to_nat hop_length).
Proof.
  unfold librosa_frame.
  destruct (Z.ltb_spec (Z.of_nat (length x)) frame_length); [discriminate|].
  destruct (Z.ltb_spec hop_length 1); [discriminate|].
  intros [= <-]. simpl length. rewrite length_map, length_seq.
  repeat split; assumption.
Qed.

Lemma frame_energy_length (frames : list (list Q)) (energy : list Q) :
  frame_energy frames = Ok energy -> length energy = length frames.
Proof.
  unfold frame_energy.
  destruct (np_min _); simpl; [|discriminate].
  destruct (np_max _); simpl; [|discriminate].
  intros [= <-]. now rewrite !length_map.
Qed.

Lemma covered_end_le (len fl hop : nat) :
  (fl <= len)%nat -> (1 <= hop)%nat -> ((n_frames len fl hop - 1) * hop + fl <= len)%nat.
Proof.
  intros Hfl Hhop. unfold n_frames.
  replace (1 + (len - fl) / hop - 1)%nat with ((len - fl) / hop)%nat by lia.
  pose proof (Nat.Div0.mul_div_le (len - fl) hop). lia.
Qed.

(** Whenever the mask construction succeeds, both masks have the length of
    the signal, they sum to 1 at every sample position covered by an
    analysis frame, and both are 0 at every position past the last frame. *)
Lemma speaker_masks_partition (audio : list Q) (sample_rate : Z)
        (operator_mask customer_mask : list Q) :
  speaker_masks audio sample_rate = Ok (operator_mask, customer_mask) ->
  length operator_mask = length audio /\ length customer_mask = length audio /\
  (covered_end (length audio) sample_rate <= length audio)%nat /\
  forall k, (k < length audio)%nat ->
    ((k < covered_end (length audio) sample_rate)%nat ->
       nth k operator_mask 0 + nth k customer_mask 0 == 1)
    /\ ((covered_end (length audio) sample_rate <= k)%nat ->
       nth k operator_mask 0 == 0 /\ nth k customer_mask 0 == 0).
Proof.
  unfold speaker_masks.
  destruct (librosa_frame audio _ _) as [frames|] eqn:Ef; simpl; [|discriminate].
  destruct (frame_energy frames) as [energy|] eqn:Ee; simpl; [|discriminate].
  apply librosa_frame_ok in Ef as [Hfl [Hhop Hn]].
  apply frame_energy_length in Ee. rewrite Hn in Ee.
  destruct (frame_lengths_ordered _ Hhop) as [Hhf [Ht0 Htf]].
  set (len := length audio) in *.
  set (fl := Z.to_nat (frame_length_of sample_rate)) in *.
  set (hop := Z.to_nat (hop_length_of sample_rate)) in *.
  set (trans := Z.to_nat (transition_length_of sample_rate)).
  assert (fl <= len)%nat as Hfl' by (unfold fl, len; lia).
  assert (1 <= hop)%nat as Hhop' by (unfold hop; lia).
  assert (hop <= fl)%nat as Hhf' by (unfold hop, fl; lia).
  assert (trans <= fl)%nat as Htf' by (unfold trans, fl; lia).
  pose proof (covered_end_le len fl hop Hfl' Hhop') as Hcov.
  assert (covered_end len sample_rate = (n_frames len fl hop - 1) * hop + fl)%nat
    as Ecov by reflexivity.
  assert (length energy = S (n_frames len fl hop - 1)) as En
      by (rewrite Ee; unfold n_frames; lia).
  rewrite Ecov.
  match goal with
  | |- context [fold_left (crossfade_frame _ _ _) _ ?m] => set (masks := m)
  end.
  assert (partition_upto len ((n_frames len fl hop - 1) * hop + fl) masks) as Hassign.
  { change ((n_frames len fl hop - 1) * hop + fl)%nat
      with (reached hop fl (0 + S (n_frames len fl hop - 1))).
    unfold masks. rewrite En.
    apply assign_loop_partition; trivial.
    - apply partition_zeros.
    - right. simpl. rewrite Nat.sub_0_r. exact Hcov. }
  assert (partition_upto len ((n_frames len fl hop - 1) * hop + fl)
            (fold_left (crossfade_frame hop trans len) (seq 1 (length energy - 1)) masks))
    as Hfade.
  { apply crossfade_loop_partition with (fl := fl); trivial; [lia|].
    rewrite En. simpl. rewrite Nat.sub_0_r.
    destruct (n_frames len fl hop - 1)%nat eqn:E'; [now left|right].
    simpl. rewrite Nat.sub_0_r. lia. }
  intros [= E]. fold trans in E. rewrite E in Hfade.
  destruct Hfade as [Lo [Lc H]].
  repeat split; trivial; apply H; assumption.
Qed.

(** What the mask construction does keep: whenever it succeeds, both masks
    have the length of the signal and, after the 0.8/0.2 weight assignment
    and the cross-fade, the operator mask value plus the customer mask
    value equals 1 at every sample position covered by an analysis frame,
    that is at every position before the end of the last frame. *)
Theorem speaker_masks_sum_to_one (audio : list Q) (sample_rate : Z)
        (operator_mask customer_mask : list Q) :
  speaker_masks audio sample_rate = Ok (operator_mask, customer_mask) ->
  length operator_mask = length audio /\ length customer_mask = length audio /\
  forall k, (k < covered_end (length audio) sample_rate)%nat ->
            (k < length audio)%nat
            /\ nth k operator_mask 0 + nth k customer_mask 0 == 1.
Proof.
  intro H. destruct (speaker_masks_partition _ _ _ _ H) as (Lo & Lc & Hcov & Hk).
  split; [exact Lo|]. split; [exact Lc|].
  intros k Hlt. assert (k < length audio)%nat as Hin by lia.
  split; [exact Hin|]. now apply (Hk k Hin).
Qed.

Lemma speaker_masks_sum_to_one_witness :
  exists operator_mask customer_mask,
    speaker_masks demo_audio 1000 = Ok (operator_mask, customer_mask)
    /\ nth 12 operator_mask 0 == 0.5
    /\ nth 12 operator_mask 0 + nth 12 customer_mask 0 == 1.
Proof.
  eexists. eexists. split.
  - vm_compute. reflexivity.
  - split; [vm_compute; reflexivity|].
    match goal with
    | |- nth 12 ?op 0 + nth 12 ?cu 0 == 1 =>
        destruct (speaker_masks_sum_to_one demo_audio 1000 op cu) as (_ & _ & H)
    end.
    + vm_compute. reflexivity.
    + apply (H 12%nat). vm_compute. lia.
Defined.

(** C3: on a signal of 250 samples of 0.5 at 8 kHz the masks do not sum to
    1 everywhere.  The signal has one analysis frame of 200 samples; the
    last 50 positions are in no frame, both zero-initialised masks are
    never written there, and at sample 249 the operator and customer mask
    are both 0: their sum is 0, not 1.  Both outputs of
    [separate_speakers_from_mono] are therefore 0 at that sample, where the
    input is 0.5. *)
Theorem speaker_masks_tail_unwritten :
  exists audio operator_mask customer_mask operator_audio customer_audio,
    normalize_audio (repeat 0.5 250) = Ok audio
    /\ speaker_masks audio 8000 = Ok (operator_mask, customer_mask)
    /\ covered_end (length audio) 8000 = 200%nat
    /\ (249 < length audio)%nat
    /\ nth 199 operator_mask 0 + nth 199 customer_mask 0 == 1
    /\ nth 249 operator_mask 0 == 0 /\ nth 249 customer_mask 0 == 0
    /\ nth 249 operator_mask 0 + nth 249 customer_mask 0 == 0
    /\ ~ nth 249 operator_mask 0 + nth 249 customer_mask 0 == 1
    /\ separate_speakers_from_mono (repeat 0.5 250) 8000
       = (operator_audio, customer_audio, 8000%Z)
    /\ nth 249 operator_audio 1 == 0 /\ nth 249 customer_audio 1 == 0.
Proof.
  do 5 eexists. split; [vm_compute; reflexivity|].
  split; [vm_compute; reflexivity|].
  split; [vm_compute; reflexivity|].
  split; [vm_compute; lia|].
  split; [vm_compute; reflexivity|].
  split; [vm_compute; reflexivity|].
  split; [vm_compute; reflexivity|].
  split; [vm_compute; reflexivity|].
  split; [vm_compute; congruence|].
  split; [vm_compute; reflexivity|].
  split; vm_compute; reflexivity.
Qed.

(** ** Fail-open path of the mono diarization *)

(** When a step after the normalisation raises, the handler returns the
    normalised signal. *)
Lemma separate_speakers_handler (audio normalized : list Q) (sample_rate : Z) (e : exn) :
  normalize_audio audio = Ok normalized ->
  separate_steps normalized sample_rate = Raise e ->
  separate_speakers_from_mono audio sample_rate = (normalized, normalized, sample_rate).
Proof.
  intros Hn Hs. unfold separate_speakers_from_mono. now rewrite Hn, Hs.
Qed.

(** C4: on the two-sample signal [0.5, -0.25] at 16 kHz the framing step
    raises (the signal is shorter than one 400-sample frame); the handler
    returns, for both speakers, the normalised signal [1, -0.5], which
    differs from the input. *)
Theorem separate_speakers_returns_normalized :
  exists out,
    separate_speakers_from_mono [0.5; -0.25] 16000 = (out, out, 16000%Z)
    /\ normalize_audio [0.5; -0.25] = Ok out
    /\ separate_steps out 16000 = Raise ParameterError
    /\ signal_eq out [1; -0.5]
    /\ ~ signal_eq out [0.5; -0.25].
Proof.
  eexists. split; [vm_compute; reflexivity|].
  split; [vm_compute; reflexivity|].
  split; [vm_compute; reflexivity|].
  split.
  - repeat constructor.
  - intro H. inversion H as [|x y l l' Hxy _]. discriminate Hxy.
Qed.

(** ** Band-pass cut-offs *)

(** What the clamps do guarantee.  For a sample rate of at least 200 Hz the
    cut-offs are computed, ordered, at least 0.01 apart unless the band was
    already wider, and below 0.249; the lower bound 0.001 holds whenever the
    band is not re-centred. *)
Lemma bandpass_cutoffs_upper (lowcut highcut : Q) (sample_rate : Z) :
  (200 <= sample_rate)%Z ->
  exists low high,
    bandpass_cutoffs lowcut highcut sample_rate = Ok (low, high)
    /\ low < high /\ high <= 0.249 /\ 0.01 <= high - low
    /\ (0.001 <= low \/ high - low == 0.01).
Proof.
  intro Hsr. unfold bandpass_cutoffs.
  set (nyquist := 0.5 * inject_Z sample_rate).
  assert (100 <= nyquist) as Hny.
  { unfold nyquist. rewrite Zle_Qle in Hsr.
    setoid_replace 100 with (0.5 * inject_Z 200) by reflexivity.
    apply Qmult_le_l; [reflexivity | exact Hsr]. }
  destruct (Qeq_bool nyquist 0) eqn:Ez.
  { apply Qeq_bool_eq in Ez. rewrite Ez in Hny. lra. }
  set (lc := Qmax 20 (Qmin lowcut (nyquist * 0.25 * 0.8))).
  set (hc := Qmax (lc + 30) (Qmin highcut (nyquist * 0.25))).
  assert (lc / nyquist <= 0.2) as Hlow.
  { apply Qle_shift_div_r; [lra|]. unfold lc. apply Q.max_lub; [lra|].
    apply Qle_trans with (nyquist * 0.25 * 0.8); [apply Q.le_min_r | lra]. }
  set (low0 := lc / nyquist) in *. set (high0 := hc / nyquist).
  set (low := Qmax 0.001 (Qmin low0 0.249)).
  set (high := Qmax (low + 0.001) (Qmin high0 0.249)).
  assert (0.001 <= low) as L1 by apply Q.le_max_l.
  assert (low <= 0.2) as L2.
  { unfold low. apply Q.max_lub; [lra|].
    apply Qle_trans with low0; [apply Q.le_min_l | exact Hlow]. }
  assert (low + 0.001 <= high) as H1 by apply Q.le_max_l.
  assert (high <= 0.249) as H2.
  { unfold high. apply Q.max_lub; [lra | apply Q.le_min_r]. }
  clearbody low high.
  destruct (Qltb (high - low) 0.01) eqn:Enarrow.
  - apply Qltb_spec in Enarrow.
    exists ((low + high) / 2 - 0.005), ((low + high) / 2 + 0.005).
    split; [reflexivity|].
    assert ((low + high) / 2 == (low + high) * 0.5) as Emid by field.
    rewrite !Emid.
    split; [lra|]. split; [lra|]. split; [lra|]. right. ring.
  - unfold Qltb in Enarrow. apply Qgtb_false in Enarrow.
    exists low, high. split; [reflexivity|].
    split; [lra|]. split; [lra|]. split; [lra|]. now left.
Qed.

(** Below 200 Hz the upper bound can fail as well. *)
Example bandpass_cutoffs_100Hz :
  exists low high,
    bandpass_cutoffs 0 100000 100 = Ok (low, high) /\ high == 0.2545.
Proof. eexists. eexists. split; vm_compute; reflexivity. Qed.

(** Any failure inside the [try] block, a rejected filter design included,
    makes [bandpass_filter] return its input. *)
Lemma bandpass_filter_fallback (scipy_butter_lfilter : Z -> Q * Q -> list Q -> result (list Q))
      (data : list Q) (lowcut highcut : Q) (sample_rate order : Z) (e : exn) :
  bandpass_filter_body scipy_butter_lfilter data lowcut highcut sample_rate order = Raise e ->
  bandpass_filter scipy_butter_lfilter data lowcut highcut sample_rate order = data.
Proof.
  intro H. unfold bandpass_filter. now rewrite H.
Qed.

(** A filter design that rejects a non-positive cut-off leaves the signal of
    [bandpass_filter(data, 0, 50, 44100)] unfiltered. *)
Lemma bandpass_filter_0_50_unfiltered
      (scipy_butter_lfilter : Z -> Q * Q -> list Q -> result (list Q))
      (data : list Q) (order : Z) :
  (forall o cut d, fst cut <= 0 -> scipy_butter_lfilter o cut d = Raise FilterError) ->
  bandpass_filter scipy_butter_lfilter data 0 50 44100 order = data.
Proof.
  intro Hreject. apply bandpass_filter_fallback with (e := FilterError).
  unfold bandpass_filter_body.
  destruct (bandpass_cutoffs 0 50 44100) as [[low high]|] eqn:E; [|discriminate E].
  simpl. rewrite Hreject; [reflexivity|].
  vm_compute in E. injection E as <- <-. discriminate.
Qed.

(** C1: for [bandpass_filter(data, 0, 50, 44100)] the clamps give
    low = 0.001 and high = 50/22050; the band is narrower than 0.01, so it
    is re-centred around its middle and the lower cut-off handed to the
    filter design becomes negative. *)
Theorem bandpass_cutoffs_recentred_below_range :
  exists low high,
    bandpass_cutoffs 0 50 44100 = Ok (low, high)
    /\ low == -0.005 + (0.001 + 50 / 22050) / 2
    /\ low < 0
    /\ ~ 0.001 <= low.
Proof.
  eexists. eexists. split; [vm_compute; reflexivity|].
  split; [vm_compute; reflexivity|].
  split; [vm_compute; reflexivity|].
  vm_compute. intro H. apply H. reflexivity.
Qed.

(** ** Streak counting *)

Lemma maximal_runs_nonempty (targets emotions : list string) :
  maximal_runs targets emotions <> [].
Proof.
  induction emotions as [|e rest IH]; simpl; [discriminate|].
  destruct (maximal_runs targets rest); [congruence|].
  destruct (Py.mem e targets); discriminate.
Qed.

(** The pieces are runs of target labels, the cuts are exactly at labels
    outside the target set (so every run is maximal), and the pieces with
    the cut labels between them are the sequence. *)
Lemma maximal_runs_decompose (targets emotions : list string) :
  Forall (Forall (fun e => Py.mem e targets = true)) (maximal_runs targets emotions)
  /\ exists seps,
       Forall (fun e => Py.mem e targets = false) seps
       /\ length (maximal_runs targets emotions) = S (length seps)
       /\ interleave (maximal_runs targets emotions) seps = emotions.
Proof.
  induction emotions as [|e rest [IHr (seps & Hs & Hl & Hi)]]; simpl.
  - split; [repeat constructor|]. exists []. repeat split; constructor.
  - destruct (maximal_runs targets rest) as [|r rs] eqn:E; [discriminate Hl|].
    destruct (Py.mem e targets) eqn:M.
    + split.
      * inversion IHr; subst. constructor; [constructor|]; assumption.
      * exists seps. repeat split; trivial.
        destruct seps; simpl in *; congruence.
    + split.
      * constructor; [constructor | assumption].
      * exists (e :: seps). repeat split.
        -- constructor; assumption.
        -- simpl in *. congruence.
        -- simpl. f_equal. exact Hi.
Qed.

Lemma count_emotion_sequences_finish (emotions targets : list string) (min_length : Z) :
  count_emotion_sequences emotions targets min_length
  = finish min_length (fold_left (streak_step targets min_length) emotions (0, 0)%Z).
Proof.
  unfold count_emotion_sequences, finish.
  now destruct (fold_left _ _ _).
Qed.

(** The scan started with [count] streaks and a run of [current_streak]
    labels in progress. *)
Lemma scan_runs (targets : list string) (min_length : Z) (emotions : list string) :
  forall count current_streak : Z,
    match maximal_runs targets emotions with
    | [] => False
    | r :: rs =>
        finish min_length
               (fold_left (streak_step targets min_length) emotions (count, current_streak))
        = (count
           + (if (min_length <=? current_streak + Z.of_nat (length r)) then 1 else 0)
           + Z.of_nat (length (filter (long_enough min_length) rs)))%Z
    end.
Proof.
  induction emotions as [|e rest IH]; intros count cur; simpl.
  - rewrite Z.geb_leb, !Z.add_0_r. destruct (min_length <=? cur)%Z; lia.
  - specialize (IH) as IH'.
    destruct (maximal_runs targets rest) as [|r rs] eqn:E; [exact (IH 0 0)%Z|].
    destruct (Py.mem e targets) eqn:M.
    + rewrite IH'. simpl length.
      replace (cur + 1 + Z.of_nat (length r))%Z
        with (cur + Z.of_nat (S (length r)))%Z by lia.
      reflexivity.
    + rewrite IH'. simpl filter. unfold long_enough at 2.
      rewrite Z.geb_leb. simpl length. rewrite Z.add_0_r, Z.add_0_l.
      destruct (min_length <=? cur)%Z, (min_length <=? Z.of_nat (length r))%Z;
        simpl length; lia.
Qed.

(** C7: the sequential scan counts exactly the maximal runs of target labels
    that are at least [min_length] long, the run that ends the sequence
    included; for a positive [min_length] these are the non-empty maximal
    runs of that length.  In particular the two sequences of the
    specification give 1 and 0, with the label names of the specification
    and with those of the pipeline. *)
Theorem count_emotion_sequences_counts_maximal_runs :
  (forall (emotions targets : list string) (min_length : Z),
      count_emotion_sequences emotions targets min_length
      = streak_count_spec emotions targets min_length)
  /\ (forall (emotions targets : list string) (min_length : Z),
         (1 <= min_length)%Z ->
         count_emotion_sequences emotions targets min_length
         = Z.of_nat (length (filter (long_enough min_length)
                               (filter nonempty (maximal_runs targets emotions)))))
  /\ count_emotion_sequences ["negative"; "negative"; "neutral"]%string
                             ["negative"%string] 2 = 1%Z
  /\ count_emotion_sequences ["negative"; "neutral"; "negative"]%string
                             ["negative"%string] 2 = 0%Z
  /\ count_emotion_sequences [negative; negative; neutral] [negative] 2 = 1%Z
  /\ count_emotion_sequences [negative; neutral; negative] [negative] 2 = 0%Z.
Proof.
  assert (forall emotions targets min_length,
             count_emotion_sequences emotions targets min_length
             = streak_count_spec emotions targets min_length) as Hspec.
  { intros emotions targets min_length.
    rewrite count_emotion_sequences_finish. unfold streak_count_spec.
    pose proof (scan_runs targets min_length emotions 0 0) as H.
    destruct (maximal_runs targets emotions) as [|r rs]; [destruct H|].
    rewrite H. simpl. unfold long_enough at 2.
    destruct (min_length <=? Z.of_nat (length r))%Z; simpl length; lia. }
  split; [exact Hspec|]. split; [|repeat split; reflexivity].
  intros emotions targets min_length Hmin. rewrite Hspec. unfold streak_count_spec.
  do 2 f_equal.
  induction (maximal_runs targets emotions) as [|r rs IH]; simpl; [reflexivity|].
  destruct r as [|x r]; simpl.
  - unfold long_enough at 1. simpl.
    destruct (Z.leb_spec min_length 0); [lia | exact IH].
  - destruct (long_enough min_length (x :: r)); [f_equal|]; exact IH.
Qed.

Lemma count_emotion_sequences_counts_maximal_runs_witness :
  count_emotion_sequences [joy; joy; joy; neutral; joy; neutral; joy; joy] [joy] 2
  = Z.of_nat (length (filter (long_enough 2)
                        (filter nonempty
                           (maximal_runs [joy]
                              [joy; joy; joy; neutral; joy; neutral; joy; joy]))))
  /\ count_emotion_sequences [joy; joy; joy; neutral; joy; neutral; joy; joy] [joy] 2
     = 2%Z.
Proof.
  split.
  - apply (proj1 (proj2 count_emotion_sequences_counts_maximal_runs)). lia.
  - reflexivity.
Defined.

(** ** Quality score *)

Lemma slice_length {A : Type} (l : list A) (a b : Z) :
  length (Py.slice l a b)
  = Nat.min (Z.to_nat (Py.clip_index (Z.of_nat (length l)) b)
             - Z.to_nat (Py.clip_index (Z.of_nat (length l)) a))
            (length l - Z.to_nat (Py.clip_index (Z.of_nat (length l)) a)).
Proof.
  unfold Py.slice. now rewrite length_firstn, length_skipn.
Qed.

(** With more than ten rows neither third of the table is empty. *)
Lemma thirds_nonempty (df : DataFrame) :
  (10 < length df)%nat ->
  length (Py.slice df 0 (Z.of_nat (length df) / 3)) <> 0%nat
  /\ length (Py.slice df (- Z.of_nat (length df) / 3) (Z.of_nat (length df))) <> 0%nat.
Proof.
  intro H. rewrite !slice_length. unfold Py.clip_index.
  set (n := Z.of_nat (length df)).
  assert (10 < n)%Z as Hn by (unfold n; lia).
  pose proof (Z.div_mod n 3 ltac:(lia)) as D1.
  pose proof (Z.mod_pos_bound n 3 ltac:(lia)) as B1.
  pose proof (Z.div_mod (- n) 3 ltac:(lia)) as D2.
  pose proof (Z.mod_pos_bound (- n) 3 ltac:(lia)) as B2.
  split.
  - destruct (Z.ltb_spec 0 0); [lia|].
    destruct (Z.ltb_spec (n / 3) 0); [lia|]. unfold n in *. lia.
  - destruct (Z.ltb_spec (- n / 3) 0); [|lia].
    destruct (Z.ltb_spec n 0); [lia|]. unfold n in *. lia.
Qed.

Lemma clamp_0_10 (score : Q) : 0 <= Qmax 0.0 (Qmin 10.0 score) /\ Qmax 0.0 (Qmin 10.0 score) <= 10.
Proof.
  split.
  - apply Qle_trans with 0.0; [discriminate | apply Q.le_max_l].
  - apply Q.max_lub.
    + discriminate.
    + apply Qle_trans with 10.0; [apply Q.le_min_l | discriminate].
Qed.

Lemma truediv_ok (a b : Z) : b <> 0%Z -> truediv a b = Ok (of_int a / of_int b).
Proof.
  intro H. unfold truediv. destruct (Z.eqb_spec b 0); [contradiction | reflexivity].
Qed.

(** Every table is scored, and the score lies in [0, 10]. *)
Lemma calculate_call_quality_total (df : DataFrame) :
  exists score, calculate_call_quality df = Ok score /\ 0 <= score /\ score <= 10.
Proof.
  unfold calculate_call_quality.
  destruct (Nat.ltb_spec 0 (length df)) as [Hpos|Hzero].
  - rewrite truediv_ok by lia. simpl bind.
    destruct (Nat.ltb_spec 10 (length df)) as [Hbig|Hsmall].
    + destruct (thirds_nonempty df Hbig) as [Hs He].
      rewrite !truediv_ok by lia. simpl bind.
      match goal with
      | |- context [if ?c then _ else _] => destruct c
      end; simpl bind; eexists; (split; [reflexivity | apply clamp_0_10]).
    + simpl bind. eexists. split; [reflexivity | apply clamp_0_10].
  - simpl bind.
    destruct (Nat.ltb_spec 10 (length df)) as [Hbig|Hsmall]; [lia|].
    simpl bind. eexists. split; [reflexivity | apply clamp_0_10].
Qed.

Lemma make_df_ok (times : list Q) (ops cus : list string) :
  length times = length ops -> length ops = length cus ->
  exists df, make_df times ops cus = Ok df
             /\ length df = length ops
             /\ map operator_emotion df = ops
             /\ map customer_emotion df = cus
             /\ map time df = times.
Proof.
  intros H1 H2. unfold make_df.
  rewrite H1, H2, !Nat.eqb_refl. simpl. eexists. split; [reflexivity|].
  clear - H1 H2. revert ops cus H1 H2.
  induction times as [|t ts IH]; intros [|o ops] [|c cus] H1 H2; simpl in *;
    try discriminate; try (repeat split; reflexivity).
  destruct (IH ops cus) as (L & O & C & T); [congruence | congruence |].
  repeat split; congruence.
Qed.

(** C5: for operator and customer label sequences of one length, at least
    1, put in a table with their timestamps, [calculate_call_quality]
    returns a score, and the score lies in the closed interval [0, 10]. *)
Theorem calculate_call_quality_in_range (times : list Q) (ops cus : list string) :
  length ops = length cus -> length times = length ops -> (1 <= length ops)%nat ->
  exists df score,
    make_df times ops cus = Ok df
    /\ map operator_emotion df = ops /\ map customer_emotion df = cus
    /\ calculate_call_quality df = Ok score
    /\ 0 <= score /\ score <= 10.
Proof.
  intros Hoc Hto _.
  destruct (make_df_ok times ops cus Hto Hoc) as (df & E & _ & O & C & _).
  destruct (calculate_call_quality_total df) as (score & S & L & U).
  exists df, score. repeat split; assumption.
Qed.

Lemma calculate_call_quality_in_range_witness :
  exists df score,
    make_df [0; 1; 2] [negative; negative; joy] [negative; neutral; joy] = Ok df
    /\ calculate_call_quality df = Ok score
    /\ score == 5.4 /\ 0 <= score /\ score <= 10.
Proof.
  destruct (calculate_call_quality_in_range
              [0; 1; 2] [negative; negative; joy] [negative; neutral; joy])
    as (df & score & E & _ & _ & S & L & U); [reflexivity | reflexivity | simpl; lia |].
  exists df, score. repeat split; trivial.
  vm_compute in E. injection E as <-. vm_compute in S. injection S as <-.
  reflexivity.
Defined.

(** ** Key moments *)

Lemma calmb_spec (label : string) : calmb label = true <-> calm label.
Proof.
  unfold calmb, calm. rewrite orb_true_iff, !String.eqb_eq. reflexivity.
Qed.

Lemma deescalatedb_spec (df : DataFrame) (i : nat) :
  deescalatedb df i = true <-> deescalated df i.
Proof.
  unfold deescalatedb, deescalated.
  rewrite !andb_true_iff, !calmb_spec, String.eqb_eq. tauto.
Qed.

Lemma mem_calmb (label : string) : Py.mem label [neutral; joy] = calmb label.
Proof.
  unfold Py.mem, calmb. simpl. rewrite orb_false_r.
  now rewrite (String.eqb_sym label neutral), (String.eqb_sym label joy).
Qed.

Lemma collect_filter (df : DataFrame) (a : nat) (cond : nat -> bool) :
  collect df a cond = map (time_at df) (filter cond (Py.range a (length df))).
Proof.
  unfold collect.
  enough (forall l acc,
             fold_left (fun points i => if cond i then points ++ [time_at df i] else points)
                       l acc
             = acc ++ map (time_at df) (filter cond l)) as H by apply H.
  induction l as [|i l IH]; intro acc; simpl.
  - now rewrite app_nil_r.
  - rewrite IH. destruct (cond i); simpl; [now rewrite <- app_assoc | reflexivity].
Qed.

Lemma filter_eqb_seq (k a n : nat) :
  filter (fun i => (i =? k)%nat) (seq a n)
  = if (a <=? k)%nat && (k <? a + n)%nat then [k] else [].
Proof.
  revert a. induction n as [|n IH]; intro a; simpl.
  - destruct (Nat.leb_spec a k), (Nat.ltb_spec k (a + 0)); simpl; trivial; lia.
  - rewrite IH.
    destruct (Nat.eqb_spec a k), (Nat.leb_spec (S a) k), (Nat.ltb_spec k (S a + n)),
      (Nat.leb_spec a k), (Nat.ltb_spec k (a + S n)); simpl; trivial; try lia.
    congruence.
Qed.

Lemma filter_single (p : nat -> bool) (k a n : nat) :
  (a <= k < a + n)%nat -> (forall i, (a <= i < a + n)%nat -> p i = (i =? k)%nat) ->
  filter p (seq a n) = [k].
Proof.
  intros Hk Hp.
  rewrite (filter_ext_in p (fun i => (i =? k)%nat)).
  - rewrite filter_eqb_seq.
    destruct (Nat.leb_spec a k), (Nat.ltb_spec k (a + n)); simpl; trivial; lia.
  - intros i Hi. apply in_seq in Hi. now apply Hp.
Qed.

Lemma negative_not_neutral : String.eqb neutral negative = false.
Proof. reflexivity. Qed.

(** The list is, in order, the timestamps of the indices from 2 on that
    match the pattern. *)
Lemma good_responses_filter (df : DataFrame) :
  good_responses (extract_key_moments df)
  = map (time_at df) (filter (deescalatedb df) (seq 2 (length df - 2))).
Proof.
  unfold extract_key_moments. cbn [good_responses].
  rewrite collect_filter. unfold Py.range. f_equal.
  apply filter_ext. intro i. unfold deescalatedb. now rewrite !mem_calmb.
Qed.

(** C8: the 'operator successfully de-escalated' list is, in order, the
    timestamps of exactly the indices [i >= 2] that match the fixed
    two-segment-lag pattern; and when the customer is negative at index 3
    only (neutral everywhere else) and the operator is joyful at index 4,
    the list is the timestamp of index 5, once. *)
Theorem good_responses_two_segment_lag :
  (forall df : DataFrame,
      good_responses (extract_key_moments df)
      = map (time_at df) (filter (deescalatedb df) (seq 2 (length df - 2))))
  /\ (forall (df : DataFrame) (i : nat), deescalatedb df i = true <-> deescalated df i)
  /\ (forall (df : DataFrame) (t : Q),
         In t (good_responses (extract_key_moments df))
         <-> exists i, (2 <= i < length df)%nat /\ deescalated df i /\ t = time_at df i)
  /\ (forall df : DataFrame,
         (6 <= length df)%nat ->
         (forall j, (j < length df)%nat ->
                    customer_at df j = if (j =? 3)%nat then negative else neutral) ->
         operator_at df 4 = joy ->
         good_responses (extract_key_moments df) = [time_at df 5]).
Proof.
  assert (forall df : DataFrame,
      good_responses (extract_key_moments df)
      = map (time_at df) (filter (deescalatedb df) (seq 2 (length df - 2)))) as Hlist.
  { exact good_responses_filter. }
  split; [exact Hlist|]. split; [exact deescalatedb_spec|]. split.
  - intros df t. rewrite Hlist, in_map_iff. split.
    + intros (i & <- & Hi). apply filter_In in Hi as [Hi Hp].
      apply in_seq in Hi. apply deescalatedb_spec in Hp.
      exists i. split; [lia|]. split; [exact Hp | reflexivity].
    + intros (i & Hi & Hp & ->). exists i. split; [reflexivity|].
      apply filter_In. split; [apply in_seq; lia | now apply deescalatedb_spec].
  - intros df Hlen Hcust Hop. rewrite Hlist.
    rewrite (filter_single _ 5); [reflexivity | lia |].
    intros i Hi. unfold deescalatedb.
    rewrite (Hcust (i - 2)%nat), (Hcust i) by lia.
    destruct (Nat.eqb_spec i 5) as [->|Hne].
    + simpl Nat.sub. rewrite Hop. reflexivity.
    + destruct (Nat.eqb_spec (i - 2) 3) as [E|_]; [lia|].
      now rewrite negative_not_neutral.
Qed.

Lemma good_responses_two_segment_lag_witness :
  good_responses (extract_key_moments demo_call) = [time_at demo_call 5]
  /\ time_at demo_call 5 == 50
  /\ In 50 (good_responses (extract_key_moments demo_call)).
Proof.
  destruct good_responses_two_segment_lag as (_ & _ & Hin & Hex).
  split; [|split].
  - apply Hex.
    + simpl. lia.
    + intros j Hj. simpl in Hj.
      do 7 (destruct j as [|j]; [reflexivity|]). lia.
    + reflexivity.
  - reflexivity.
  - apply Hin. exists 5%nat. split; [simpl; lia|]. split.
    + apply deescalatedb_spec. reflexivity.
    + reflexivity.
Defined.

Lemma time_at_injective (df : DataFrame) (i j : nat) :
  NoDup (map time df) -> (i < length df)%nat -> (j < length df)%nat ->
  time_at df i = time_at df j -> i = j.
Proof.
  intros Hnd Hi Hj E. unfold time_at in E.
  rewrite <- !(map_nth time) in E.
  apply (proj1 (NoDup_nth (map time df) (time empty_row)) Hnd);
    rewrite ?length_map; assumption.
Qed.

(** The same moment read with fewer assumptions: whatever the other labels
    are, when the timestamps are pairwise distinct, the customer is
    negative at index 3 and neutral at index 5 and the operator is joyful
    at index 4, the timestamp of index 5 is in the list, at one place
    only. *)
Lemma good_responses_index5_once (df : DataFrame) :
  NoDup (map time df) -> (6 <= length df)%nat ->
  customer_at df 3 = negative -> operator_at df 4 = joy -> customer_at df 5 = neutral ->
  exists before after,
    good_responses (extract_key_moments df) = before ++ time_at df 5 :: after
    /\ ~ In (time_at df 5) before /\ ~ In (time_at df 5) after.
Proof.
  intros Hnd Hlen Hc3 Ho4 Hc5.
  rewrite good_responses_filter.
  replace (length df - 2)%nat with (3 + S (length df - 6))%nat by lia.
  rewrite seq_app. change (seq (2 + 3) (S (length df - 6)))
    with (5%nat :: seq 6 (length df - 6)).
  rewrite filter_app. simpl filter at 2.
  assert (deescalatedb df 5 = true) as ->.
  { apply deescalatedb_spec. unfold deescalated, calm. simpl Nat.sub.
    rewrite Hc3, Ho4, Hc5. tauto. }
  rewrite map_app. simpl map at 2.
  eexists. eexists. split; [reflexivity|].
  split; intro Hin; apply in_map_iff in Hin as (i & E & Hi);
    apply filter_In in Hi as [Hi _]; apply in_seq in Hi;
    apply time_at_injective in E; trivial; lia.
Qed.

(** ** The counting dict of a window *)

Lemma mem_In (e : string) (l : list string) : Py.mem e l = true <-> In e l.
Proof.
  unfold Py.mem. rewrite existsb_exists. split.
  - intros (x & Hx & E). apply String.eqb_eq in E. now subst.
  - intro H. exists e. split; [exact H | apply String.eqb_refl].
Qed.

Lemma mem_false (e : string) (l : list string) : Py.mem e l = false <-> ~ In e l.
Proof.
  rewrite <- mem_In. destruct (Py.mem e l); split; congruence.
Qed.

Lemma see_fold_In (w seen : list string) (k : string) :
  In k (fold_left see w seen) <-> In k seen \/ In k w.
Proof.
  revert seen. induction w as [|e w IH]; intro seen; simpl; [tauto|].
  rewrite IH. unfold see. destruct (Py.mem e seen) eqn:M.
  - apply mem_In in M. split; [tauto|]. intros [H|[<-|H]]; tauto.
  - rewrite in_app_iff. simpl. tauto.
Qed.

Lemma see_fold_NoDup (w seen : list string) :
  NoDup seen -> NoDup (fold_left see w seen).
Proof.
  revert seen. induction w as [|e w IH]; intros seen H; simpl; [exact H|].
  apply IH. unfold see. destruct (Py.mem e seen) eqn:M; [exact H|].
  apply mem_false in M. apply NoDup_app; [exact H | repeat constructor; tauto |].
  intros x Hx [<-|[]]. contradiction.
Qed.

Lemma first_seen_In (w : list string) (k : string) : In k (first_seen w) <-> In k w.
Proof. unfold first_seen. rewrite see_fold_In. simpl. tauto. Qed.

Lemma first_seen_NoDup (w : list string) : NoDup (first_seen w).
Proof. apply see_fold_NoDup. constructor. Qed.

Lemma first_seen_snoc (w : list string) (e : string) :
  first_seen (w ++ [e]) = see (first_seen w) e.
Proof. unfold first_seen. now rewrite fold_left_app. Qed.

Lemma dict_mem_tabulate (value : string -> Z) (keys : list string) (e : string) :
  Py.dict_mem e (tabulate value keys) = Py.mem e keys.
Proof.
  induction keys as [|k keys IH]; simpl; [reflexivity|].
  now rewrite IH, (String.eqb_sym k e).
Qed.

Lemma dict_update_tabulate (value : string -> Z) (f : Z -> Z) (keys : list string)
      (e : string) :
  NoDup keys ->
  Py.dict_update e f (tabulate value keys)
  = tabulate (fun k => if String.eqb k e then f (value k) else value k) keys.
Proof.
  induction keys as [|k keys IH]; intro H; simpl; [reflexivity|].
  inversion H as [|? ? Hk Hn]; subst.
  destruct (String.eqb_spec k e) as [->|Hne].
  - f_equal. apply map_ext_in. intros x Hx.
    destruct (String.eqb_spec x e) as [->|]; [contradiction | reflexivity].
  - f_equal. now apply IH.
Qed.

Lemma dict_set_tabulate (value : string -> Z) (v : Z) (keys : list string) (e : string) :
  ~ In e keys ->
  Py.dict_set e v (tabulate value keys) = tabulate value keys ++ [(e, v)].
Proof.
  induction keys as [|k keys IH]; intro H; simpl; [reflexivity|].
  destruct (String.eqb_spec k e) as [->|Hne]; [simpl in H; tauto|].
  f_equal. apply IH. simpl in H. tauto.
Qed.

Lemma occurrences_snoc (w : list string) (e k : string) :
  occurrences k (w ++ [e]) = (occurrences k w + if String.eqb k e then 1 else 0)%nat.
Proof.
  unfold occurrences. rewrite count_occ_app. simpl.
  destruct (string_dec e k) as [->|Hne].
  - now rewrite String.eqb_refl.
  - destruct (String.eqb_spec k e); [congruence | reflexivity].
Qed.

(** The counting loop builds the table of occurrences, keyed in
    first-met order. *)
Lemma counting_dict (w : list string) :
  fold_left count_step w []
  = tabulate (fun k => Z.of_nat (occurrences k w)) (first_seen w).
Proof.
  induction w as [|e w IH] using rev_ind; [reflexivity|].
  rewrite fold_left_app, first_seen_snoc. simpl. rewrite IH.
  unfold count_step, see. rewrite dict_mem_tabulate.
  destruct (Py.mem e (first_seen w)) eqn:M.
  - rewrite dict_update_tabulate by apply first_seen_NoDup.
    apply map_ext. intro k. rewrite occurrences_snoc.
    destruct (String.eqb k e); f_equal; lia.
  - apply mem_false in M. rewrite dict_set_tabulate by exact M.
    unfold tabulate. rewrite map_app. simpl. f_equal.
    + apply map_ext_in. intros k Hk. rewrite occurrences_snoc.
      destruct (String.eqb_spec k e) as [->|]; [contradiction|]. f_equal. lia.
    + rewrite occurrences_snoc, String.eqb_refl.
      rewrite first_seen_In in M. unfold occurrences.
      rewrite (proj1 (count_occ_not_In string_dec w e) M). reflexivity.
Qed.

(** [max] keeps the first item no later item exceeds: everything before the
    item it returns is strictly smaller, everything after is at most
    equal. *)
Lemma pick_first_max (rest : list (string * Z)) :
  forall best, exists d1 d2,
    best :: rest = d1 ++ fold_left pick rest best :: d2
    /\ (forall x, In x d1 -> (snd x < snd (fold_left pick rest best))%Z)
    /\ (forall x, In x d2 -> (snd x <= snd (fold_left pick rest best))%Z).
Proof.
  induction rest as [|x rest IH]; intro best; simpl.
  - exists [], []. repeat split; intros x [].
  - unfold pick at 2 4 6. destruct (Z.gtb_spec (snd x) (snd best)) as [Hgt|Hle].
    + destruct (IH x) as (d1 & d2 & E & H1 & H2).
      set (res := fold_left pick rest x) in *.
      assert (snd x <= snd res)%Z as Hx.
      { assert (In x (d1 ++ res :: d2)) as Hin by (rewrite <- E; now left).
        apply in_app_iff in Hin as [Hin|[Hin|Hin]];
          [apply Z.lt_le_incl, H1, Hin | rewrite Hin; lia | apply H2, Hin]. }
      exists (best :: d1), d2. split; [simpl; now rewrite E|]. split; [|exact H2].
      intros y [<-|Hy]; [lia | now apply H1].
    + destruct (IH best) as (d1 & d2 & E & H1 & H2).
      set (res := fold_left pick rest best) in *.
      destruct d1 as [|b d1]; simpl in E.
      * injection E as Eb Er. exists [], (x :: d2). split; [simpl; congruence|].
        split; [intros y []|]. intros y [<-|Hy]; [rewrite <- Eb; lia | now apply H2].
      * injection E as Eb Er. subst b.
        exists (best :: x :: d1), d2. split; [simpl; congruence|]. split; [|exact H2].
        assert (snd best < snd res)%Z as Hb by (apply H1; now left).
        intros y [<-|[<-|Hy]]; [exact Hb | lia | apply H1; now right].
Qed.

(** Where a label stands in first-met order, it stands in the window: all
    labels met before its first occurrence precede it in that order. *)
Lemma first_seen_split (w : list string) :
  forall K1 k K2, first_seen w = K1 ++ k :: K2 ->
    exists pre post, w = pre ++ k :: post /\ ~ In k pre
                     /\ forall l, In l pre -> In l K1.
Proof.
  induction w as [|e w IH] using rev_ind; intros K1 k K2 E.
  - destruct K1; discriminate E.
  - rewrite first_seen_snoc in E. unfold see in E.
    destruct (Py.mem e (first_seen w)) eqn:M.
    + destruct (IH _ _ _ E) as (pre & post & -> & Hn & Hp).
      exists pre, (post ++ [e]). split; [now rewrite <- app_assoc|]. now split.
    + apply mem_false in M. rewrite first_seen_In in M.
      destruct K2 as [|y K2] using rev_ind.
      * apply app_inj_tail in E as [E1 <-].
        exists w, []. split; [reflexivity|]. split; [exact M|].
        intros l Hl. rewrite <- E1. now apply first_seen_In.
      * clear IHK2.
        change (K1 ++ k :: K2 ++ [y]) with (K1 ++ (k :: K2) ++ [y]) in E.
        rewrite app_assoc in E. apply app_inj_tail in E as [E1 _].
        destruct (IH _ _ _ E1) as (pre & post & -> & Hn & Hp).
        exists pre, (post ++ [e]). split; [now rewrite <- app_assoc|]. now split.
Qed.

Lemma most_common_spec (window : list string) :
  window <> [] ->
  exists label, most_common window = Ok label /\ most_frequent_first window label.
Proof.
  intro Hne. unfold most_common. rewrite counting_dict.
  set (value := fun k => Z.of_nat (occurrences k window)).
  destruct (first_seen window) as [|k0 K] eqn:EK.
  { destruct window as [|e w]; [congruence|].
    assert (In e (first_seen (e :: w))) as H by (apply first_seen_In; now left).
    rewrite EK in H. destruct H. }
  unfold tabulate. simpl.
  change (fun best x : string * Z => if (snd x >? snd best)%Z then x else best) with pick.
  destruct (pick_first_max (map (fun k => (k, value k)) K) (k0, value k0))
    as (d1 & d2 & E & H1 & H2).
  set (res := fold_left pick _ _) in *.
  change ((k0, value k0) :: map (fun k => (k, value k)) K)
    with (map (fun k => (k, value k)) (k0 :: K)) in E.
  apply map_eq_app in E as (K1 & K2' & EK' & <- & E2).
  apply map_eq_cons in E2 as (k & K2 & -> & Er & <-).
  rewrite <- EK in EK'.
  destruct (first_seen_split window K1 k K2 EK') as (pre & post & Ew & Hn & Hp).
  exists (fst res). split; [reflexivity|].
  rewrite <- Er. simpl fst. exists pre, post. split; [exact Ew|]. split; [exact Hn|].
  assert (forall l, In l K1 -> (occurrences l window < occurrences k window)%nat) as Hlt.
  { intros l Hl.
    assert (snd (l, value l) < snd res)%Z as H
        by (apply H1, (in_map (fun k => (k, value k))), Hl).
    rewrite <- Er in H. unfold value in H. simpl in H. lia. }
  split.
  - intros l Hl. apply Hlt, Hp, Hl.
  - intros l Hl.
    assert (In l (first_seen window)) as Hin.
    { apply first_seen_In. rewrite Ew. apply in_app_iff. right. now right. }
    rewrite EK' in Hin. apply in_app_iff in Hin as [Hin|[<-|Hin]].
    + apply Nat.lt_le_incl, Hlt, Hin.
    + apply Nat.le_refl.
    + assert (snd (l, value l) <= snd res)%Z as H
          by (apply H2, (in_map (fun k => (k, value k))), Hin).
      rewrite <- Er in H. unfold value in H. simpl in H. lia.
Qed.

(** ** Smoothing *)

Lemma mapM_ok {A B : Type} (f : A -> result B) (l : list A) (ys : list B) (a : A) (b : B) :
  Py.mapM f l = Ok ys ->
  length ys = length l
  /\ forall i, (i < length l)%nat -> f (nth i l a) = Ok (nth i ys b).
Proof.
  revert ys. induction l as [|x l IH]; intros ys; simpl.
  - intros [= <-]. split; [reflexivity|]. intros i Hi. simpl in Hi. lia.
  - destruct (f x) as [y|e] eqn:Ex; simpl; [|discriminate].
    destruct (Py.mapM f l) as [ys'|e] eqn:El; simpl; [|discriminate].
    intros [= <-]. destruct (IH ys' eq_refl) as [Hl Hn]. split; [simpl; now rewrite Hl|].
    intros [|i] Hi; simpl; [exact Ex | apply Hn; simpl in Hi; lia].
Qed.

Lemma mapM_total {A B : Type} (f : A -> result B) (l : list A) :
  (forall x, In x l -> exists y, f x = Ok y) -> exists ys, Py.mapM f l = Ok ys.
Proof.
  induction l as [|x l IH]; intro H; simpl; [now eexists|].
  destruct (H x (or_introl eq_refl)) as [y ->].
  destruct IH as [ys ->]; [intros; apply H; now right|]. simpl. now eexists.
Qed.

Lemma slice_incl {A : Type} (l : list A) (a b : Z) (x : A) :
  In x (Py.slice l a b) -> In x l.
Proof.
  unfold Py.slice. intro H.
  set (n := Z.to_nat (Py.clip_index (Z.of_nat (length l)) a)) in *.
  set (m := (Z.to_nat (Py.clip_index (Z.of_nat (length l)) b) - n)%nat) in *.
  rewrite <- (firstn_skipn n l). apply in_or_app. right.
  rewrite <- (firstn_skipn m (skipn n l)). apply in_or_app. now left.
Qed.

(** Between two positions inside the list a slice is the labels at those
    positions. *)
Lemma slice_positions (l : list string) (a b : nat) :
  (a <= b <= length l)%nat ->
  Py.slice l (Z.of_nat a) (Z.of_nat b)
  = map (fun j => nth j l EmptyString) (seq a (b - a)).
Proof.
  intro H. unfold Py.slice, Py.clip_index.
  destruct (Z.ltb_spec (Z.of_nat a) 0); [lia|].
  destruct (Z.ltb_spec (Z.of_nat b) 0); [lia|].
  rewrite !Z.min_l, !Nat2Z.id by lia.
  apply (nth_ext _ _ EmptyString EmptyString).
  - rewrite length_firstn, length_skipn, length_map, length_seq. lia.
  - intros i Hi. rewrite length_firstn, length_skipn in Hi.
    rewrite nth_firstn, nth_skipn.
    destruct (Nat.ltb_spec i (b - a)); [|lia].
    rewrite (nth_indep (map (fun j => nth j l EmptyString) (seq a (b - a)))
                       EmptyString (nth 0 l EmptyString))
      by (rewrite length_map, length_seq; lia).
    rewrite (map_nth (fun j => nth j l EmptyString)), seq_nth by lia. reflexivity.
Qed.

(** A window of non-negative size around a position of the sequence holds
    that position. *)
Lemma window_at_nonempty (emotions : list string) (window_size : Z) (i : nat) :
  (0 <= window_size)%Z -> (i < length emotions)%nat ->
  window_at emotions window_size i <> [].
Proof.
  intros Hw Hi E. apply (f_equal (@length string)) in E.
  unfold window_at in E. rewrite slice_length in E. unfold Py.clip_index in E.
  assert (0 <= window_size / 2)%Z as Hh by (apply Z.div_pos; lia).
  set (h := (window_size / 2)%Z) in *. set (n := Z.of_nat (length emotions)) in *.
  assert (Z.of_nat i < n)%Z as Hin by (unfold n; lia).
  destruct (Z.ltb_spec (Z.max 0 (Z.of_nat i - h)) 0); [lia|].
  destruct (Z.ltb_spec (Z.min n (Z.of_nat i + h + 1)) 0); [lia|].
  simpl in E. unfold n in *. lia.
Qed.

Lemma window_at_3 (emotions : list string) (i : nat) :
  (i < length emotions)%nat ->
  window_at emotions 3 i = centered_window emotions i.
Proof.
  intro Hi. unfold window_at, centered_window.
  change (3 / 2)%Z with 1%Z.
  replace (Z.max 0 (Z.of_nat i - 1)) with (Z.of_nat (i - 1)) by lia.
  replace (Z.min (Z.of_nat (length emotions)) (Z.of_nat i + 1 + 1))
    with (Z.of_nat (Nat.min (i + 2) (length emotions))) by lia.
  apply slice_positions. lia.
Qed.

Lemma most_common_In (window : list string) (label : string) :
  most_common window = Ok label -> In label window.
Proof.
  intro H. destruct window as [|e w]; [discriminate H|].
  destruct (most_common_spec (e :: w)) as (l & E & pre & post & -> & _); [discriminate|].
  rewrite H in E. injection E as <-. apply in_app_iff. right. now left.
Qed.

Lemma range_nth (n i : nat) : (i < n)%nat -> nth i (Py.range 0 n) 0%nat = i.
Proof. intro H. unfold Py.range. rewrite seq_nth; lia. Qed.

Lemma range_length (n : nat) : length (Py.range 0 n) = n.
Proof. unfold Py.range. rewrite length_seq. lia. Qed.

(** Whatever the window size, a list that [smooth_emotions] returns has the
    length of the input and draws position [i] from the window around
    [i]. *)
Lemma smooth_emotions_ok (emotions : list string) (window_size : Z) (smoothed : list string) :
  smooth_emotions emotions window_size = Ok smoothed ->
  length smoothed = length emotions
  /\ (forall l, In l smoothed -> In l emotions)
  /\ ((Z.of_nat (length emotions) <= window_size)%Z -> smoothed = emotions)
  /\ ((window_size < Z.of_nat (length emotions))%Z ->
      forall i, (i < length emotions)%nat ->
                most_common (window_at emotions window_size i)
                = Ok (nth i smoothed EmptyString)).
Proof.
  unfold smooth_emotions.
  destruct (Z.leb_spec (Z.of_nat (length emotions)) window_size) as [Hle|Hgt].
  - intros [= <-]. repeat split; trivial. intro; lia.
  - intro H. apply (mapM_ok _ _ _ 0%nat EmptyString) in H as [Hl Hn].
    rewrite range_length in Hl, Hn.
    assert (forall i, (i < length emotions)%nat ->
                      most_common (window_at emotions window_size i)
                      = Ok (nth i smoothed EmptyString)) as Hpos.
    { intros i Hi. rewrite <- (Hn i Hi), range_nth by exact Hi. reflexivity. }
    repeat split; trivial; [|intro; lia].
    intros l Hl'. apply (In_nth _ _ EmptyString) in Hl' as (i & Hi & <-).
    rewrite Hl in Hi. apply Hpos, most_common_In in Hi.
    unfold window_at in Hi. eapply slice_incl, Hi.
Qed.

(** For a non-negative window size [smooth_emotions] returns. *)
Lemma smooth_emotions_total (emotions : list string) (window_size : Z) :
  (0 <= window_size)%Z -> exists smoothed, smooth_emotions emotions window_size = Ok smoothed.
Proof.
  intro Hw. unfold smooth_emotions.
  destruct (Z.leb_spec (Z.of_nat (length emotions)) window_size); [now eexists|].
  apply mapM_total. intros i Hi. unfold Py.range in Hi. apply in_seq in Hi.
  destruct (most_common_spec (window_at emotions window_size i)) as (l & E & _).
  - apply window_at_nonempty; lia.
  - now exists l.
Qed.

Lemma most_frequent_max (window : list string) (label : string) :
  most_frequent_first window label ->
  forall l, In l window -> (occurrences l window <= occurrences label window)%nat.
Proof.
  intros (pre & post & E & _ & Hpre & Hpost) l Hl.
  rewrite E in Hl at 1. apply in_app_iff in Hl as [Hl|[<-|Hl]].
  - apply Nat.lt_le_incl, Hpre, Hl.
  - apply Nat.le_refl.
  - apply Hpost, Hl.
Qed.

(** C2 (as amended): with window size 3, a sequence of more than three
    labels is smoothed position by position, each output label being the
    most frequent label of the centred, boundary-clipped window of size 3,
    ties going to the label met first in the window; a sequence of at most
    three labels is returned as it is.  For
    [neutral, negative, negative, negative, neutral] the middle three labels
    stay negative. *)
Theorem smooth_emotions_window3 :
  (forall emotions : list string,
      (3 < length emotions)%nat ->
      exists smoothed,
        smooth_emotions emotions 3 = Ok smoothed
        /\ length smoothed = length emotions
        /\ forall i, (i < length emotions)%nat ->
                     most_frequent_first (centered_window emotions i)
                                         (nth i smoothed EmptyString))
  /\ (forall emotions : list string,
         (length emotions <= 3)%nat -> smooth_emotions emotions 3 = Ok emotions)
  /\ smooth_emotions ["neutral"; "negative"; "negative"; "negative"; "neutral"]%string 3
     = Ok ["neutral"; "negative"; "negative"; "negative"; "negative"]%string.
Proof.
  split; [|split].
  - intros emotions Hlen.
    destruct (smooth_emotions_total emotions 3) as [smoothed E]; [lia|].
    destruct (smooth_emotions_ok _ _ _ E) as (Hl & _ & _ & Hpos).
    exists smoothed. split; [exact E|]. split; [exact Hl|].
    intros i Hi. specialize (Hpos ltac:(lia) i Hi).
    rewrite window_at_3 in Hpos by exact Hi.
    destruct (most_common_spec (centered_window emotions i)) as (l & El & Hspec).
    + rewrite <- window_at_3 by exact Hi. apply window_at_nonempty; [lia | exact Hi].
    + rewrite Hpos in El. injection El as <-. exact Hspec.
  - intros emotions Hlen. unfold smooth_emotions.
    destruct (Z.leb_spec (Z.of_nat (length emotions)) 3); [reflexivity | lia].
  - reflexivity.
Qed.

Lemma smooth_emotions_window3_witness :
  exists smoothed,
    smooth_emotions [joy; negative; joy; neutral; neutral] 3 = Ok smoothed
    /\ most_frequent_first (centered_window [joy; negative; joy; neutral; neutral] 1)
                           (nth 1 smoothed EmptyString)
    /\ nth 1 smoothed EmptyString = joy
    /\ smooth_emotions [joy; negative] 3 = Ok [joy; negative].
Proof.
  destruct smooth_emotions_window3 as (Hlong & Hshort & _).
  destruct (Hlong [joy; negative; joy; neutral; neutral]) as (smoothed & E & _ & H);
    [simpl; lia|].
  exists smoothed. split; [exact E|]. split; [apply H; simpl; lia|].
  split.
  - vm_compute in E. injection E as <-. reflexivity.
  - apply Hshort. simpl. lia.
Defined.

(** C2 (as stated) fails on a sequence of exactly three labels: it is
    returned unchanged although the window around its middle position is
    majority-joy. *)
Lemma smooth_emotions_short_counterexample :
  smooth_emotions [joy; negative; joy] 3 = Ok [joy; negative; joy]
  /\ centered_window [joy; negative; joy] 1 = [joy; negative; joy]
  /\ most_frequent_first (centered_window [joy; negative; joy] 1) joy
  /\ ~ most_frequent_first (centered_window [joy; negative; joy] 1)
                           (nth 1 [joy; negative; joy] EmptyString).
Proof.
  split; [reflexivity|]. split; [reflexivity|]. split.
  - exists [], [negative; joy]. split; [reflexivity|]. split; [intros []|].
    split; [intros l []|]. intros l Hl. apply Nat.leb_le.
    destruct Hl as [<-|[<-|[]]]; reflexivity.
  - intro H. apply most_frequent_max with (l := joy) in H; [|now left].
    apply Nat.leb_le in H. discriminate H.
Qed.

(** C9 (as amended): for every label list and every window size that is not
    negative, [smooth_emotions] returns a list of the length of its input
    whose labels all occur in the input. *)
Theorem smooth_emotions_length_and_labels (emotions : list string) (window_size : Z) :
  (0 <= window_size)%Z ->
  exists smoothed,
    smooth_emotions emotions window_size = Ok smoothed
    /\ length smoothed = length emotions
    /\ forall l, In l smoothed -> In l emotions.
Proof.
  intro Hw. destruct (smooth_emotions_total emotions window_size Hw) as [smoothed E].
  destruct (smooth_emotions_ok _ _ _ E) as (Hl & Hin & _).
  exists smoothed. repeat split; assumption.
Qed.

Lemma smooth_emotions_length_and_labels_witness :
  exists smoothed,
    smooth_emotions [joy; negative; joy; neutral; neutral; joy] 5 = Ok smoothed
    /\ length smoothed = 6%nat
    /\ forall l, In l smoothed -> In l [joy; negative; joy; neutral; neutral; joy].
Proof.
  apply (smooth_emotions_length_and_labels
           [joy; negative; joy; neutral; neutral; joy] 5).
  lia.
Defined.

(** C9 (as stated) fails for a negative window size: every window is the
    empty slice and [max] over the empty counting dict raises. *)
Lemma smooth_emotions_negative_window_counterexample :
  smooth_emotions [neutral] (-1) = Raise ValueError
  /\ ~ exists smoothed, smooth_emotions [neutral] (-1) = Ok smoothed.
Proof.
  split; [reflexivity|]. intros [smoothed H]. discriminate H.
Qed.

(** ** The classifier's choice *)

Lemma max_key3 (a b c : string) (x y z : Q) :
  exists l, Py.max_key Qgtb [(a, x); (b, y); (c, z)] = Ok l
            /\ ((l = a /\ y <= x /\ z <= x)
                \/ (l = b /\ x < y /\ z <= y)
                \/ (l = c /\ x < z /\ y < z)).
Proof.
  simpl. destruct (Qgtb y x) eqn:Eyx; simpl.
  - apply Qgtb_spec in Eyx. destruct (Qgtb z y) eqn:Ezy; simpl.
    + apply Qgtb_spec in Ezy. exists c. split; [reflexivity|].
      right; right. repeat split; trivial. now apply Qlt_trans with y.
    + apply Qgtb_false in Ezy. exists b. split; [reflexivity|].
      right; left. repeat split; trivial.
  - apply Qgtb_false in Eyx. destruct (Qgtb z x) eqn:Ezx; simpl.
    + apply Qgtb_spec in Ezx. exists c. split; [reflexivity|].
      right; right. repeat split; trivial. now apply Qle_lt_trans with x.
    + apply Qgtb_false in Ezx. exists a. split; [reflexivity|].
      left. repeat split; trivial.
Qed.

(** The score dict after the bonus and the gate. *)
Lemma scores_after_bonus_and_gate (p : string) (bonus : bool) (n j u : Q) :
  (if Qltb n 5
   then Py.dict_set negative 0
          (if bonus && Py.dict_mem p [(negative, n); (joy, j); (neutral, u)]
           then Py.dict_update p (fun v => v + 0.3)
                               [(negative, n); (joy, j); (neutral, u)]
           else [(negative, n); (joy, j); (neutral, u)])
   else (if bonus && Py.dict_mem p [(negative, n); (joy, j); (neutral, u)]
         then Py.dict_update p (fun v => v + 0.3)
                             [(negative, n); (joy, j); (neutral, u)]
         else [(negative, n); (joy, j); (neutral, u)]))
  = [(negative, final_negative (if bonus then Some p else None) n);
     (joy, with_bonus (if bonus then Some p else None) joy j);
     (neutral, with_bonus (if bonus then Some p else None) neutral u)].
Proof.
  unfold final_negative, with_bonus.
  destruct bonus; [|destruct (Qltb n 5); reflexivity].
  cbn [andb].
  destruct (String.eqb_spec p negative) as [->|Hn];
    [destruct (Qltb n 5); reflexivity|].
  destruct (String.eqb_spec p joy) as [->|Hj];
    [destruct (Qltb n 5); reflexivity|].
  destruct (String.eqb_spec p neutral) as [->|Hu];
    [destruct (Qltb n 5); reflexivity|].
  replace (Py.dict_mem p [(negative, n); (joy, j); (neutral, u)]) with false.
  - destruct (Qltb n 5); reflexivity.
  - symmetry. cbn [Py.dict_mem].
    rewrite (proj2 (String.eqb_neq negative p)) by congruence.
    rewrite (proj2 (String.eqb_neq joy p)) by congruence.
    rewrite (proj2 (String.eqb_neq neutral p)) by congruence.
    reflexivity.
Qed.

Section ClassifierProperties.

Variable np_sqrt : Q -> Q.

(** One segment: the label emitted wins on the final scores. *)
Lemma classify_segment_spec (features : list feature) (emotions : list string)
      (i : nat) (f : feature) :
  exists label,
    classify_segment np_sqrt features emotions i f = Ok label
    /\ let previous := if (0 <? i)%nat then Some (last emotions EmptyString) else None in
       let '(negative_score, joy_score, neutral_score) := raw_scores np_sqrt features f in
       wins (final_negative previous negative_score)
            (with_bonus previous joy joy_score)
            (with_bonus previous neutral neutral_score)
            label.
Proof.
  unfold classify_segment.
  destruct (raw_scores np_sqrt features f) as [[n j] u].
  destruct (Qltb n 5) eqn:G.
  - pose proof (scores_after_bonus_and_gate (last emotions EmptyString) (0 <? i)%nat n j u)
      as H.
    rewrite G in H. rewrite H. apply max_key3.
  - pose proof (scores_after_bonus_and_gate (last emotions EmptyString) (0 <? i)%nat n j u)
      as H.
    rewrite G in H. rewrite H. apply max_key3.
Qed.

End ClassifierProperties.

Lemma combine_snoc {A B : Type} (l1 : list A) (l2 : list B) (a : A) (b : B) :
  length l1 = length l2 ->
  combine (l1 ++ [a]) (l2 ++ [b]) = combine l1 l2 ++ [(a, b)].
Proof.
  revert l2. induction l1 as [|x l1 IH]; intros [|y l2] H; simpl in *;
    try discriminate; [reflexivity|].
  f_equal. apply IH. congruence.
Qed.

Lemma last_firstn (l : list string) (j : nat) :
  (j < length l)%nat -> last (firstn (S j) l) EmptyString = nth j l EmptyString.
Proof.
  revert j. induction l as [|x l IH]; intros j Hj; simpl in Hj; [lia|].
  destruct j as [|j].
  - simpl. now destruct l.
  - change (firstn (S (S j)) (x :: l)) with (x :: firstn (S j) l).
    assert (firstn (S j) l <> []) as Hne by (destruct l; simpl in *; [lia | discriminate]).
    simpl nth. rewrite <- IH by lia.
    destruct (firstn (S j) l); [congruence | reflexivity].
Qed.

Section ClassifierLoop.

Variable np_sqrt : Q -> Q.

(** The loop over a prefix [fs] of the call whose baseline is [all]. *)
Lemma classifier_loop (all fs : list feature) :
  exists emotions,
    fold_left (fun acc '(i, f) =>
                 emotions <- acc ;;
                 emotion <- classify_segment np_sqrt all emotions i f ;;
                 Ok (emotions ++ [emotion]))
              (combine (seq 0 (length fs)) fs) (Ok [])
    = Ok emotions
    /\ length emotions = length fs
    /\ forall i, (i < length fs)%nat ->
                 classify_segment np_sqrt all (firstn i emotions) i (nth i fs no_feature)
                 = Ok (nth i emotions EmptyString).
Proof.
  induction fs as [|f fs (emotions & E & Hl & Hn)] using rev_ind.
  - exists []. repeat split. intros i Hi. simpl in Hi. lia.
  - rewrite length_app. simpl length. rewrite Nat.add_1_r, seq_S.
    rewrite combine_snoc by now rewrite length_seq.
    rewrite fold_left_app, E. simpl.
    destruct (classify_segment_spec np_sqrt all emotions (length fs) f) as (label & El & _).
    rewrite El. simpl. exists (emotions ++ [label]). split; [reflexivity|].
    split; [rewrite length_app; simpl; lia|].
    intros i Hi. destruct (Nat.eq_dec i (length fs)) as [->|Hne].
    + rewrite <- Hl at 1 3. rewrite firstn_app, Nat.sub_diag, firstn_all. simpl firstn.
      rewrite app_nil_r, Hl, !nth_middle. rewrite <- Hl, nth_middle. rewrite Hl. exact El.
    + assert (i < length fs)%nat as Hi' by lia.
      rewrite firstn_app. replace (i - length emotions)%nat with 0%nat by lia.
      simpl firstn. rewrite app_nil_r, !app_nth1 by lia. now apply Hn.
Qed.

End ClassifierLoop.

(** C6: the classifier labels every segment; the label at each position has
    the maximum final score, where the label of the preceding position (none
    at the first position) gets +0.3, the negative score is 0 whenever the
    raw negative score is below 5, and ties go to the first of negative,
    joy, neutral. *)
Theorem map_features_to_emotions_argmax (np_sqrt : Q -> Q) (features : list feature) :
  exists emotions,
    map_features_to_emotions np_sqrt features = Ok emotions
    /\ length emotions = length features
    /\ forall i, (i < length features)%nat ->
         let previous := previous_of emotions i in
         let '(negative_score, joy_score, neutral_score) :=
           raw_scores np_sqrt features (nth i features no_feature) in
         wins (final_negative previous negative_score)
              (with_bonus previous joy joy_score)
              (with_bonus previous neutral neutral_score)
              (nth i emotions EmptyString).
Proof.
  destruct (classifier_loop np_sqrt features features) as (emotions & E & Hl & Hn).
  exists emotions. split; [exact E|]. split; [exact Hl|].
  intros i Hi.
  destruct (classify_segment_spec np_sqrt features (firstn i emotions) i
                                  (nth i features no_feature)) as (label & El & Hw).
  rewrite (Hn i Hi) in El. injection El as <-.
  replace (previous_of emotions i)
    with (if (0 <? i)%nat then Some (last (firstn i emotions) EmptyString) else None);
    [exact Hw|].
  destruct i as [|j]; [reflexivity|].
  change (0 <? S j)%nat with true. cbv iota.
  unfold previous_of. f_equal. apply last_firstn. lia.
Qed.

Lemma map_features_to_emotions_argmax_witness :
  exists emotions,
    map_features_to_emotions exact_sqrt demo_features = Ok emotions
    /\ emotions = [joy; negative; joy; negative]
    /\ (let previous := previous_of emotions 2 in
        let '(negative_score, joy_score, neutral_score) :=
          raw_scores exact_sqrt demo_features (nth 2 demo_features no_feature) in
        wins (final_negative previous negative_score)
             (with_bonus previous joy joy_score)
             (with_bonus previous neutral neutral_score)
             (nth 2 emotions EmptyString)).
Proof.
  destruct (map_features_to_emotions_argmax exact_sqrt demo_features)
    as (emotions & E & _ & H).
  exists emotions. split; [exact E|]. split.
  - vm_compute in E. injection E as <-. reflexivity.
  - apply H. simpl. lia.
Defined.

(** * Further properties of the pipeline *)

(** ** Dominant and predominant emotion *)

Lemma dict_update_after_set {V : Type} (e : string) (v : V) (f : V -> V) (d : Py.dict V) :
  Py.dict_mem e d = false ->
  Py.dict_update e f (Py.dict_set e v d) = Py.dict_set e (f v) d.
Proof.
  induction d as [|[k w] d IH]; simpl; intro H.
  - now rewrite String.eqb_refl.
  - apply orb_false_iff in H as [Hk Hd]. rewrite Hk. simpl. rewrite Hk.
    f_equal. now apply IH.
Qed.

(** The two counting loops build the same dict. *)
Lemma predominant_step_count_step (d : Py.dict Z) (e : string) :
  predominant_step d e = count_step d e.
Proof.
  unfold predominant_step, count_step.
  destruct (Py.dict_mem e d) eqn:M; simpl; [reflexivity|].
  rewrite dict_update_after_set by exact M. reflexivity.
Qed.

Lemma predominant_counts (emotions : list string) :
  fold_left predominant_step emotions [] = fold_left count_step emotions [].
Proof.
  generalize (@nil (string * Z)).
  induction emotions as [|e l IH]; intro d; simpl; [reflexivity|].
  now rewrite predominant_step_count_step, IH.
Qed.

(** [get_dominant_emotion] raises ValueError on the empty list and
    otherwise returns the most frequent label, the one met first among
    equally frequent ones. *)
Theorem get_dominant_emotion_most_frequent (emotions : list string) :
  (emotions = [] -> get_dominant_emotion emotions = Raise ValueError)
  /\ (emotions <> [] ->
      exists label, get_dominant_emotion emotions = Ok label
                    /\ most_frequent_first emotions label).
Proof.
  split.
  - intros ->. reflexivity.
  - intro H. exact (most_common_spec emotions H).
Qed.

Lemma get_dominant_emotion_most_frequent_witness :
  exists label,
    get_dominant_emotion [neutral; joy; joy; neutral; negative] = Ok label
    /\ most_frequent_first [neutral; joy; joy; neutral; negative] label
    /\ label = neutral.
Proof.
  destruct (proj2 (get_dominant_emotion_most_frequent
                     [neutral; joy; joy; neutral; negative]))
    as (label & E & H); [discriminate|].
  exists label. split; [exact E|]. split; [exact H|].
  vm_compute in E. now injection E as <-.
Defined.

(** [utils.get_predominant_emotion] and
    [emotion_analysis.get_dominant_emotion] agree on every list, the empty
    one included (both raise ValueError), although their counting loops
    differ. *)
Theorem get_predominant_emotion_agrees (emotions : list string) :
  get_predominant_emotion emotions = get_dominant_emotion emotions.
Proof.
  unfold get_predominant_emotion, get_dominant_emotion.
  now rewrite predominant_counts.
Qed.

(** ** Emotion statistics *)

Lemma mapM_map_ok {A B : Type} (f : A -> result B) (g : A -> B) (l : list A) :
  (forall x, In x l -> f x = Ok (g x)) -> Py.mapM f l = Ok (map g l).
Proof.
  induction l as [|x l IH]; intro H; simpl; [reflexivity|].
  rewrite (H x) by now left. simpl. rewrite IH by (intros; apply H; now right).
  reflexivity.
Qed.

Lemma fold_Qplus_acc (l : list Q) (a : Q) :
  fold_left Qplus l a == a + fold_left Qplus l 0.
Proof.
  revert a. induction l as [|x l IH]; intro a; simpl.
  - ring.
  - rewrite (IH (a + x)), (IH (0 + x)). ring.
Qed.

Lemma np_sum_cons (x : Q) (l : list Q) : np_sum (x :: l) == x + np_sum l.
Proof.
  unfold np_sum. simpl. rewrite fold_Qplus_acc. ring.
Qed.

(** Each label of a list is counted once over a duplicate-free list of keys
    that holds it. *)
Lemma indicator_sum (e : string) (keys : list string) :
  NoDup keys -> In e keys ->
  list_sum (map (fun k => if string_dec e k then 1 else 0)%nat keys) = 1%nat.
Proof.
  induction keys as [|k keys IH]; intros Hnd Hin; [destruct Hin|].
  inversion Hnd as [|? ? Hk Hn]; subst. simpl.
  destruct (string_dec e k) as [->|Hne].
  - f_equal. clear IH Hin Hnd Hn. induction keys as [|k' keys IH]; [reflexivity|].
    simpl. destruct (string_dec k k') as [->|_]; [exfalso; apply Hk; now left|].
    apply IH. intro H. apply Hk. now right.
  - destruct Hin as [->|Hin]; [congruence|]. now apply IH.
Qed.

Lemma occurrences_total (w keys : list string) :
  NoDup keys -> (forall e, In e w -> In e keys) ->
  list_sum (map (fun k => occurrences k w) keys) = length w.
Proof.
  intros Hnd. induction w as [|e w IH]; intro Hin.
  - clear. induction keys as [|k keys IH]; simpl; [reflexivity | exact IH].
  - simpl length. rewrite <- Nat.add_1_l.
    rewrite <- IH by (intros; apply Hin; now right).
    rewrite <- (indicator_sum e keys Hnd) by (apply Hin; now left).
    clear. induction keys as [|k keys IHk]; [reflexivity|].
    cbn [map].
    assert (forall x l, list_sum (x :: l) = (x + list_sum l)%nat) as Hc by reflexivity.
    rewrite !Hc, IHk. unfold occurrences. cbn [count_occ].
    destruct (string_dec e k); lia.
Qed.

Lemma share_sum (n : Q) (count : string -> nat) (keys : list string) :
  np_sum (map (fun k => inject_Z (Z.of_nat (count k)) / n) keys)
  == inject_Z (Z.of_nat (list_sum (map count keys))) / n.
Proof.
  induction keys as [|k keys IH].
  - unfold np_sum. simpl. unfold Qdiv. ring.
  - simpl map. rewrite np_sum_cons, IH. simpl list_sum.
    rewrite Nat2Z.inj_add, inject_Z_plus. unfold Qdiv. ring.
Qed.

(** [get_emotion_statistics] never raises; its keys are the distinct labels
    in the order they are first met, each with its number of occurrences
    divided by the length of the list; the shares of a non-empty list add
    up to 1 and the statistics of the empty list are the empty dict. *)
Theorem get_emotion_statistics_shares (emotions : list string) :
  exists stats,
    get_emotion_statistics emotions = Ok stats
    /\ map fst stats = first_seen emotions
    /\ (forall label share,
           In (label, share) stats ->
           In label emotions
           /\ share = inject_Z (Z.of_nat (occurrences label emotions))
                      / inject_Z (Z.of_nat (length emotions)))
    /\ (emotions = [] -> stats = [])
    /\ (emotions <> [] -> np_sum (map snd stats) == 1).
Proof.
  unfold get_emotion_statistics. rewrite counting_dict.
  set (n := Z.of_nat (length emotions)).
  set (g := fun k : string => (k, inject_Z (Z.of_nat (occurrences k emotions)) / inject_Z n)).
  assert (Py.mapM (fun item : string * Z =>
                     share <- truediv (snd item) n ;; Ok (fst item, share))
                  (tabulate (fun k => Z.of_nat (occurrences k emotions)) (first_seen emotions))
          = Ok (map g (first_seen emotions))) as E.
  { rewrite (mapM_map_ok _ (fun item : string * Z =>
                              (fst item, of_int (snd item) / of_int n))).
    - unfold tabulate. rewrite map_map. reflexivity.
    - intros [k c] Hin. unfold tabulate in Hin.
      apply in_map_iff in Hin as (k' & [= -> <-] & Hk).
      simpl. rewrite truediv_ok; [reflexivity|].
      apply first_seen_In in Hk. unfold n. destruct emotions; [destruct Hk | simpl; lia]. }
  exists (map g (first_seen emotions)). split; [exact E|]. split.
  { rewrite map_map. simpl. apply map_id. }
  split.
  { intros label share Hin. apply in_map_iff in Hin as (k & [= -> <-] & Hk).
    split; [now apply first_seen_In | reflexivity]. }
  split.
  { intros ->. reflexivity. }
  intro Hne. rewrite map_map. simpl.
  rewrite (share_sum (inject_Z n) (fun k => occurrences k emotions)).
  rewrite occurrences_total;
    [|apply first_seen_NoDup | intros e He; now apply first_seen_In].
  fold n. apply Qmult_inv_r. unfold n.
  destruct emotions; [congruence|]. unfold Qeq, inject_Z. simpl. lia.
Qed.

Lemma get_emotion_statistics_shares_witness :
  exists stats,
    get_emotion_statistics [neutral; joy; neutral; negative] = Ok stats
    /\ map fst stats = [neutral; joy; negative]
    /\ np_sum (map snd stats) == 1.
Proof.
  destruct (get_emotion_statistics_shares [neutral; joy; neutral; negative])
    as (stats & E & K & _ & _ & S).
  exists stats. split; [exact E|]. split; [exact K|]. apply S. discriminate.
Defined.

(** ** Mapping the recogniser's emotions *)

(** The closed set of labels of the pipeline. *)
Definition category (label : string) : Prop :=
  label = negative \/ label = neutral \/ label = joy.

(** One step of [max] over the items of a score dict. *)
Definition pick_score (best x : string * Q) : string * Q :=
  if Qgtb (snd x) (snd best) then x else best.

Lemma pick_score_max (rest : list (string * Q)) :
  forall best,
    In (fold_left pick_score rest best) (best :: rest)
    /\ forall x, In x (best :: rest) -> snd x <= snd (fold_left pick_score rest best).
Proof.
  induction rest as [|y rest IH]; intro best.
  - simpl. split; [now left|]. intros x [<-|[]]. apply Qle_refl.
  - cbn [fold_left]. destruct (IH (pick_score best y)) as [Hin Hmax].
    assert (snd best <= snd (pick_score best y)
            /\ snd y <= snd (pick_score best y)
            /\ (pick_score best y = best \/ pick_score best y = y)) as (Hb & Hy & Hp).
    { unfold pick_score. destruct (Qgtb (snd y) (snd best)) eqn:G.
      - apply Qgtb_spec in G. split; [now apply Qlt_le_weak|].
        split; [apply Qle_refl | now right].
      - apply Qgtb_false in G. split; [apply Qle_refl|].
        split; [exact G | now left]. }
    split.
    + destruct Hin as [Hin|Hin]; [|right; right; exact Hin].
      rewrite <- Hin. destruct Hp as [->| ->]; [now left | right; now left].
    + intros x [<-|[<-|Hx]].
      * eapply Qle_trans; [exact Hb | apply Hmax; now left].
      * eapply Qle_trans; [exact Hy | apply Hmax; now left].
      * apply Hmax. now right.
Qed.

(** What the table makes of a recogniser label. *)
Lemma emotion_mapping_get (dominant : string) :
  category (dict_get dominant neutral emotion_mapping)
  /\ (dict_get dominant neutral emotion_mapping = joy <-> dominant = "happiness"%string)
  /\ (dict_get dominant neutral emotion_mapping = negative
      <-> In dominant ["anger"; "disgust"; "fear"; "sadness"]%string).
Proof.
  unfold emotion_mapping, category. cbn [dict_get]. simpl In.
  repeat match goal with
         | |- context [String.eqb ?a dominant] =>
             destruct (String.eqb_spec a dominant) as [<-|?]
         end;
    (split; [tauto|]); split; split; intro H;
    try discriminate H; try tauto; try congruence;
    repeat (destruct H as [H|H]; try discriminate H; try congruence);
    try contradiction.
Qed.

Lemma _map_emotions_single (emotions : Py.dict Q) :
  exists label, _map_emotions emotions = Ok [label] /\ category label.
Proof.
  destruct emotions as [|best rest].
  - exists neutral. split; [reflexivity|]. right. now left.
  - unfold _map_emotions, Py.max_key. eexists. split; [reflexivity|].
    apply emotion_mapping_get.
Qed.

(** [_map_emotions] never raises and always returns exactly one label, from
    the closed set of three: neutral for an empty dict, and otherwise the
    table's image of a key whose score no other score exceeds (neutral for
    a key the table does not know); the label is joy exactly when that key
    is happiness, and negative exactly when it is anger, disgust, fear or
    sadness. *)
Theorem _map_emotions_category (emotions : Py.dict Q) :
  exists label,
    _map_emotions emotions = Ok [label]
    /\ category label
    /\ (emotions = [] -> label = neutral)
    /\ (emotions <> [] ->
        exists dominant score,
          In (dominant, score) emotions
          /\ (forall k v, In (k, v) emotions -> v <= score)
          /\ (label = joy <-> dominant = "happiness"%string)
          /\ (label = negative
              <-> In dominant ["anger"; "disgust"; "fear"; "sadness"]%string)).
Proof.
  destruct emotions as [|best rest].
  - exists neutral. split; [reflexivity|]. split; [right; now left|].
    split; [reflexivity | congruence].
  - unfold _map_emotions, Py.max_key.
    change (fun best x : string * Q => if Qgtb (snd x) (snd best) then x else best)
      with pick_score.
    destruct (pick_score_max rest best) as [Hin Hmax].
    set (res := fold_left pick_score rest best) in *.
    destruct (emotion_mapping_get (fst res)) as (Hc & Hj & Hn).
    exists (dict_get (fst res) neutral emotion_mapping).
    split; [reflexivity|]. split; [exact Hc|]. split; [discriminate|].
    intros _. exists (fst res), (snd res). split; [now destruct res|].
    split; [|split; assumption].
    intros k v Hk. exact (Hmax (k, v) Hk).
Qed.

Lemma _map_emotions_category_witness :
  exists label,
    _map_emotions [("neutral"%string, 0.2); ("happiness"%string, 0.5);
                   ("anger"%string, 0.3)] = Ok [label]
    /\ label = joy.
Proof.
  destruct (_map_emotions_category
              [("neutral"%string, 0.2); ("happiness"%string, 0.5); ("anger"%string, 0.3)])
    as (label & E & _ & _ & H).
  exists label. split; [exact E|].
  destruct H as (dominant & score & _ & _ & _ & _); [discriminate|].
  vm_compute in E. now injection E as <-.
Defined.

(** [analyze_emotions], for a sample rate other than 0, never raises
    whatever the recogniser does, and every label it returns is one of the
    three categories: a single label for the whole signal when recognition
    went through, and otherwise one neutral label per whole second of
    audio; with sample rate 0 and no recogniser the fallback divides by
    zero. *)
Theorem analyze_emotions_labels (recogniser : option (result (Py.dict Q)))
        (unlink : result unit) (audio_len sample_rate : Z) :
  (sample_rate <> 0%Z ->
   exists labels,
     analyze_emotions recogniser unlink audio_len sample_rate = Ok labels
     /\ Forall category labels
     /\ (length labels = 1%nat
         \/ labels = repeat neutral (Z.to_nat (audio_len / sample_rate))))
  /\ (sample_rate = 0%Z -> recogniser = None ->
      analyze_emotions recogniser unlink audio_len sample_rate = Raise ZeroDivisionError).
Proof.
  split.
  - intro Hsr.
    assert (exists labels,
               neutral_labels audio_len sample_rate = Ok labels
               /\ Forall category labels
               /\ (length labels = 1%nat
                   \/ labels = repeat neutral (Z.to_nat (audio_len / sample_rate))))
      as Hfallback.
    { unfold neutral_labels. destruct (Z.eqb_spec sample_rate 0); [contradiction|].
      eexists. split; [reflexivity|]. split; [|now right].
      apply Forall_forall. intros l Hl. apply repeat_spec in Hl. subst. right. now left. }
    unfold analyze_emotions. destruct recogniser as [[voice_emotions|e]|];
      [|exact Hfallback|exact Hfallback].
    simpl bind.
    destruct (_map_emotions_single voice_emotions) as (label & -> & Hc).
    simpl bind. destruct unlink as [[]|e]; simpl; [|exact Hfallback].
    exists [label]. split; [reflexivity|]. split; [now constructor | now left].
  - intros -> ->. reflexivity.
Qed.

Lemma analyze_emotions_labels_witness :
  exists labels,
    analyze_emotions (Some (Raise ValueError)) (Ok tt) 48000 16000 = Ok labels
    /\ labels = [neutral; neutral; neutral].
Proof.
  destruct (proj1 (analyze_emotions_labels (Some (Raise ValueError)) (Ok tt) 48000 16000))
    as (labels & E & _ & _); [discriminate|].
  exists labels. split; [exact E|].
  vm_compute in E. now injection E as <-.
Defined.

(** ** Segmentation for feature extraction *)

Lemma fold_append_filter {A B : Type} (skip : A -> bool) (f : A -> B) (l : list A)
      (acc : list B) :
  fold_left (fun segs i => if skip i then segs else segs ++ [f i]) l acc
  = acc ++ map f (filter (fun i => negb (skip i)) l).
Proof.
  revert acc. induction l as [|i l IH]; intro acc; simpl.
  - now rewrite app_nil_r.
  - rewrite IH. destruct (skip i); simpl; [reflexivity | now rewrite <- app_assoc].
Qed.

Lemma filter_all {A : Type} (p : A -> bool) (l : list A) :
  (forall x, In x l -> p x = true) -> filter p l = l.
Proof.
  induction l as [|x l IH]; intro H; simpl; [reflexivity|].
  rewrite (H x) by now left. f_equal. apply IH. intros; apply H; now right.
Qed.

Lemma nth_map_range {B : Type} (f : nat -> B) (n i : nat) (d : B) :
  (i < n)%nat -> nth i (map f (Py.range 0 n)) d = f i.
Proof.
  intro H. rewrite (nth_indep _ d (f 0%nat)) by (rewrite length_map, range_length; exact H).
  now rewrite map_nth, range_nth.
Qed.

(** The loop of [segments], as a filtered map over the segment indices. *)
Lemma segments_unfold (audio : list Q) (sample_rate : Z) :
  (sample_rate / 2 <> 0)%Z ->
  segments audio sample_rate
  = Ok (map (fun i : nat =>
               Py.slice audio (Z.of_nat i * (sample_rate / 2))
                        (Z.min (Z.of_nat i * (sample_rate / 2) + sample_rate)
                               (Z.of_nat (length audio))))
            (filter (fun i : nat =>
                       negb (Z.min (Z.of_nat i * (sample_rate / 2) + sample_rate)
                                   (Z.of_nat (length audio))
                             - Z.of_nat i * (sample_rate / 2) <? sample_rate / 2)%Z)
                    (Py.range 0 (Z.to_nat
                                   (Z.max 1 (Z.quot (Z.of_nat (length audio) - sample_rate)
                                                    (sample_rate / 2) + 1)))))).
Proof.
  intro H. unfold segments, segment_bounds.
  destruct (Z.eqb_spec (sample_rate / 2) 0); [contradiction|].
  f_equal. exact (fold_append_filter _ _ _ []).
Qed.

(** For a sample rate of at least 2 and a signal of at least one second,
    [segments] cuts [(len - rate) // (rate // 2) + 1] segments, segment [i]
    being the [rate] samples from position [i * (rate // 2)] on: all of
    full length, none skipped.  A shorter signal gives one segment, the
    whole signal, unless it is shorter than half a second, which gives
    none.  Sample rates 0 and 1 divide by zero. *)
Theorem segments_regimes (audio : list Q) (sample_rate : Z) :
  ((2 <= sample_rate <= Z.of_nat (length audio))%Z ->
   exists segs,
     segments audio sample_rate = Ok segs
     /\ Z.of_nat (length segs)
        = ((Z.of_nat (length audio) - sample_rate) / (sample_rate / 2) + 1)%Z
     /\ forall i, (i < length segs)%nat ->
          nth i segs [] = firstn (Z.to_nat sample_rate)
                                 (skipn (i * Z.to_nat (sample_rate / 2)) audio)
          /\ length (nth i segs []) = Z.to_nat sample_rate)
  /\ ((2 <= sample_rate)%Z -> (Z.of_nat (length audio) < sample_rate)%Z ->
      segments audio sample_rate
      = Ok (if (Z.of_nat (length audio) <? sample_rate / 2)%Z then [] else [audio]))
  /\ ((0 <= sample_rate < 2)%Z -> segments audio sample_rate = Raise ZeroDivisionError).
Proof.
  set (len := Z.of_nat (length audio)).
  split; [|split].
  - intros [Hsr Hlen].
    set (hop := (sample_rate / 2)%Z).
    assert (1 <= hop /\ 2 * hop <= sample_rate)%Z as [Hhop Hhop2].
    { unfold hop. pose proof (Z.div_mod sample_rate 2 ltac:(lia)).
      pose proof (Z.mod_pos_bound sample_rate 2 ltac:(lia)). lia. }
    set (q := ((len - sample_rate) / hop)%Z).
    assert (0 <= q /\ hop * q <= len - sample_rate)%Z as [Hq Hq2].
    { unfold q. split; [apply Z.div_pos; lia | apply Z.mul_div_le; lia]. }
    rewrite segments_unfold by (fold hop; lia). fold hop len.
    rewrite Z.quot_div_nonneg by lia. fold q.
    rewrite Z.max_r by lia.
    rewrite filter_all.
    2:{ intros i Hi. unfold Py.range in Hi. apply in_seq in Hi.
        assert (Z.of_nat i <= q)%Z by lia.
        assert (Z.of_nat i * hop <= hop * q)%Z by nia.
        rewrite Z.min_l by lia.
        destruct (Z.ltb_spec (Z.of_nat i * hop + sample_rate - Z.of_nat i * hop) hop);
          [lia | reflexivity]. }
    eexists. split; [reflexivity|].
    rewrite length_map, range_length. split; [lia|].
    intros i Hi.
    rewrite nth_map_range by exact Hi.
    assert (Z.of_nat i <= q)%Z by lia.
    assert (Z.of_nat i * hop <= hop * q)%Z by nia.
    rewrite Z.min_l by lia.
    unfold Py.slice, Py.clip_index. fold len.
    destruct (Z.ltb_spec (Z.of_nat i * hop) 0); [nia|].
    destruct (Z.ltb_spec (Z.of_nat i * hop + sample_rate) 0); [nia|].
    rewrite !Z.min_l by lia.
    replace (Z.to_nat (Z.of_nat i * hop)) with (i * Z.to_nat hop)%nat by nia.
    replace (Z.to_nat (Z.of_nat i * hop + sample_rate) - i * Z.to_nat hop)%nat
      with (Z.to_nat sample_rate) by nia.
    split; [reflexivity|].
    rewrite length_firstn, length_skipn. unfold len in *. nia.
  - intros Hsr Hlen.
    set (hop := (sample_rate / 2)%Z).
    assert (1 <= hop)%Z as Hhop.
    { unfold hop. pose proof (Z.div_mod sample_rate 2 ltac:(lia)).
      pose proof (Z.mod_pos_bound sample_rate 2 ltac:(lia)). lia. }
    rewrite segments_unfold by (fold hop; lia). fold hop len.
    assert ((len - sample_rate) ÷ hop <= 0)%Z as Hquot.
    { rewrite <- (Z.quot_0_l hop) by lia. apply Z.quot_le_mono; lia. }
    rewrite Z.max_l by lia.
    change (Py.range 0 (Z.to_nat 1)) with [0%nat]. cbn [filter map].
    change (Z.of_nat 0) with 0%Z. rewrite Z.mul_0_l, Z.add_0_l, Z.sub_0_r.
    rewrite Z.min_r by lia.
    destruct (Z.ltb_spec len hop); cbn [negb map]; [reflexivity|].
    rewrite Z.mul_0_l, Z.add_0_l, Z.min_r by lia.
    do 2 f_equal. unfold Py.slice, Py.clip_index. fold len.
    destruct (Z.ltb_spec 0 0); [lia|]. destruct (Z.ltb_spec len 0); [lia|].
    rewrite !Z.min_l by lia. unfold len. rewrite Nat2Z.id.
    simpl. rewrite Nat.sub_0_r. apply firstn_all.
  - intros Hsr. unfold segments.
    assert (sample_rate / 2 = 0)%Z as -> by (apply Z.div_small; lia).
    reflexivity.
Qed.

Lemma segments_regimes_witness :
  (exists segs, segments (map inject_Z [1; 2; 3; 4; 5; 6; 7; 8; 9]%Z) 4 = Ok segs
                /\ length segs = 3%nat
                /\ nth 2 segs [] = map inject_Z [5; 6; 7; 8]%Z)
  /\ segments [1; 2; 3] 4 = Ok [[1; 2; 3]]
  /\ segments [1; 2; 3] 1 = Raise ZeroDivisionError.
Proof.
  destruct (segments_regimes (map inject_Z [1; 2; 3; 4; 5; 6; 7; 8; 9]%Z) 4)
    as (HA & _ & _).
  destruct (segments_regimes [1; 2; 3] 4) as (_ & HB & _).
  destruct (segments_regimes [1; 2; 3] 1) as (_ & _ & HC).
  split; [|split].
  - destruct HA as (segs & E & Hl & Hn); [simpl; lia|].
    exists segs. split; [exact E|]. split; [simpl in Hl; lia|].
    apply (Hn 2%nat). simpl in Hl. lia.
  - apply HB; simpl; lia.
  - apply HC. lia.
Defined.

(** From segments to a timeline: when [extract_features] returns, it holds
    one feature vector per segment, in order; the classifier then emits one
    label per segment, and smoothing with window 3 keeps that length. *)
Theorem features_one_label_per_segment
        (librosa_features : list Q -> Z -> result feature) (np_sqrt : Q -> Q)
        (audio : list Q) (sample_rate : Z) (features : list feature) :
  extract_features librosa_features audio sample_rate = Ok features ->
  exists segs emotions smoothed,
    segments audio sample_rate = Ok segs
    /\ length features = length segs
    /\ (forall i, (i < length segs)%nat ->
                  librosa_features (nth i segs []) sample_rate
                  = Ok (nth i features no_feature))
    /\ map_features_to_emotions np_sqrt features = Ok emotions
    /\ length emotions = length segs
    /\ smooth_emotions emotions 3 = Ok smoothed
    /\ length smoothed = length segs.
Proof.
  unfold extract_features.
  destruct (segments audio sample_rate) as [segs|e]; simpl; [|discriminate].
  intro H. apply (mapM_ok _ _ _ [] no_feature) in H as [Hl Hn].
  destruct (classifier_loop np_sqrt features features) as (emotions & E & Hle & _).
  destruct (smooth_emotions_total emotions 3) as [smoothed Es]; [lia|].
  destruct (smooth_emotions_ok _ _ _ Es) as (Hls & _).
  exists segs, emotions, smoothed.
  split; [reflexivity|]. split; [exact Hl|]. split; [exact Hn|].
  split; [exact E|]. split; [congruence|]. split; [exact Es | congruence].
Qed.

Lemma features_one_label_per_segment_witness :
  exists segs emotions,
    segments (repeat 1 9) 4 = Ok segs
    /\ map_features_to_emotions exact_sqrt
         (map (fun _ => demo_segment false) segs) = Ok emotions
    /\ length emotions = 3%nat.
Proof.
  destruct (features_one_label_per_segment
              (fun _ _ => Ok (demo_segment false)) exact_sqrt (repeat 1 9) 4
              (repeat (demo_segment false) 3))
    as (segs & emotions & smoothed & Hs & _ & _ & He & Hl & _); [reflexivity|].
  exists segs, emotions. split; [exact Hs|].
  vm_compute in Hs. injection Hs as <-. split; [exact He | exact Hl].
Defined.

(** ** Decoding stereo samples *)

(** Columns put back in sample order. *)
Fixpoint interleave_columns (l r : list Z) : list Z :=
  match l, r with
  | x :: l', y :: r' => x :: y :: interleave_columns l' r'
  | _, _ => []
  end.

(** A sample of 16-bit audio. *)
Definition int16 (s : Z) : Prop := (-32768 <= s <= 32767)%Z.

Lemma pair_induction (P : list Z -> Prop) :
  P [] -> (forall x, P [x]) -> (forall x y l, P l -> P (x :: y :: l)) ->
  forall l, P l.
Proof.
  intros H0 H1 H2 l.
  enough (P l /\ forall x, P (x :: l)) as [H _] by exact H.
  induction l as [|y l [IH IHx]]; split; auto.
Qed.

Lemma reshape_columns_spec (samples : list Z) :
  (Nat.even (length samples) = true ->
   exists l r,
     reshape_columns samples = Ok (l, r)
     /\ length l = (length samples / 2)%nat
     /\ length r = (length samples / 2)%nat
     /\ interleave_columns l r = samples
     /\ forall k, (k < length samples / 2)%nat ->
                  nth k l 0%Z = nth (2 * k) samples 0%Z
                  /\ nth k r 0%Z = nth (2 * k + 1) samples 0%Z)
  /\ (Nat.even (length samples) = false -> reshape_columns samples = Raise ValueError).
Proof.
  induction samples as [|x|x y rest [IHe IHo]] using pair_induction.
  - split; [|discriminate]. intros _. exists [], [].
    do 4 (split; [reflexivity|]). intros k Hk. simpl in Hk. lia.
  - split; [discriminate | reflexivity].
  - change (Nat.even (length (x :: y :: rest))) with (Nat.even (length rest)).
    split.
    + intro He. destruct (IHe He) as (l & r & E & Ll & Lr & Hi & Hn).
      exists (x :: l), (y :: r). cbn [reshape_columns]. rewrite E. cbn [bind fst snd].
      assert (length (x :: y :: rest) / 2 = S (length rest / 2))%nat as Hd.
      { change (length (x :: y :: rest)) with (2 + length rest)%nat.
        replace (2 + length rest)%nat with (1 * 2 + length rest)%nat by lia.
        rewrite Nat.div_add_l by lia. lia. }
      rewrite Hd. split; [reflexivity|]. split; [simpl; now rewrite Ll|].
      split; [simpl; now rewrite Lr|]. split; [simpl; now rewrite Hi|].
      intros [|k] Hk; [split; reflexivity|].
      replace (2 * S k)%nat with (S (S (2 * k))) by lia.
      replace (S (S (2 * k)) + 1)%nat with (S (S (2 * k + 1))) by lia.
      simpl nth. apply Hn. lia.
    + intro Ho. cbn [reshape_columns]. now rewrite (IHo Ho).
Qed.

Lemma interleave_columns_In (l r : list Z) (s : Z) :
  In s l \/ In s r -> length l = length r -> In s (interleave_columns l r).
Proof.
  revert r. induction l as [|x l IH]; intros [|y r] H Hlen; simpl in *;
    try discriminate; [tauto|].
  destruct H as [[<-|H]|[<-|H]].
  - now left.
  - right; right. apply IH; [now left | congruence].
  - right; now left.
  - right; right. apply IH; [now right | congruence].
Qed.

(** A sample that float32 holds without rounding. *)
Definition float32_exact (s : Z) : Prop := (Z.abs s < 2 ^ 24)%Z.

Lemma float32_of_int_exact (n : Z) : float32_exact n -> float32_of_int n = n.
Proof.
  unfold float32_exact. intro H. unfold float32_of_int.
  destruct (Z.ltb_spec (Z.abs n) (2 ^ 24)); [reflexivity | lia].
Qed.

(** The conversion moves an integer by at most a 2^-24 part of its
    magnitude. *)
Lemma float32_of_int_error (n : Z) :
  (Z.abs (float32_of_int n - n) * 2 ^ 24 <= Z.abs n)%Z.
Proof.
  unfold float32_of_int. destruct (Z.ltb_spec (Z.abs n) (2 ^ 24)) as [Hs|Hb].
  - rewrite Z.sub_diag. simpl Z.abs. lia.
  - set (a := Z.abs n) in *. cbv zeta.
    assert (24 <= Z.log2 a)%Z as Hlog.
    { rewrite <- (Z.log2_pow2 24) by lia. apply Z.log2_le_mono. exact Hb. }
    set (e := (Z.log2 a - 23)%Z).
    assert (1 <= e)%Z as He by (unfold e; lia).
    assert (0 < a)%Z as Ha by (change (2 ^ 24)%Z with 16777216%Z in Hb; lia).
    destruct (Z.log2_spec a Ha) as [Hlo _].
    replace (Z.log2 a) with (e - 1 + 24)%Z in Hlo by (unfold e; lia).
    rewrite Z.pow_add_r in Hlo by lia.
    assert (2 ^ e = 2 * 2 ^ (e - 1))%Z as HP.
    { replace e with (Z.succ (e - 1)) at 1 by lia. apply Z.pow_succ_r. lia. }
    assert (0 < 2 ^ (e - 1))%Z as Hh by (apply Z.pow_pos_nonneg; lia).
    pose proof (Z.div_mod a (2 ^ e) ltac:(lia)) as Hdm.
    pose proof (Z.mod_pos_bound a (2 ^ e) ltac:(lia)) as Hr.
    set (q := (a / 2 ^ e)%Z) in *. set (r := (a mod 2 ^ e)%Z) in *.
    set (half := (2 ^ (e - 1))%Z) in *. set (P := (2 ^ e)%Z) in *.
    set (c := (2 ^ 24)%Z) in *.
    assert (0 < c)%Z as Hc by (unfold c; lia).
    assert (forall q', (Z.abs (q' * P - a) <= half)%Z ->
                       (Z.abs (Z.sgn n * (q' * P) - n) * c <= a)%Z) as Hfin.
    { intros q' Hq'.
      assert (Z.abs (Z.sgn n * (q' * P) - n) = Z.abs (q' * P - a)) as ->.
      { assert (a = Z.abs n) as Ea by reflexivity. clearbody a P.
        generalize (q' * P)%Z. intro x.
        destruct (Z.sgn_spec n) as [[Hn ->]|[[Hn ->]|[Hn ->]]]; lia. }
      nia. }
    clearbody q r half P c.
    destruct (Z.ltb_spec r half); [apply Hfin; lia|].
    destruct (Z.ltb_spec half r); [apply Hfin; lia|].
    destruct (Z.even q); apply Hfin; lia.
Qed.

Lemma to_float_exact (s : Z) : float32_exact s -> to_float s = inject_Z s / 32768.
Proof. intro H. unfold to_float. now rewrite float32_of_int_exact. Qed.

(** However wide the sample, the result is within a 2^-24 part of the
    exact quotient. *)
Lemma to_float_error (s : Z) :
  Qabs (to_float s - inject_Z s / 32768) * 16777216 <= Qabs (inject_Z s / 32768).
Proof.
  unfold to_float. pose proof (float32_of_int_error s) as H.
  set (f := float32_of_int s) in *.
  setoid_replace (inject_Z f / 32768 - inject_Z s / 32768)
    with (inject_Z (f - s) * (1 # 32768))
    by (unfold Z.sub; rewrite inject_Z_plus, inject_Z_opp; field).
  setoid_replace (inject_Z s / 32768) with (inject_Z s * (1 # 32768)) by field.
  rewrite !Qabs_Qmult.
  change (Qabs (inject_Z (f - s))) with (inject_Z (Z.abs (f - s))).
  change (Qabs (inject_Z s)) with (inject_Z (Z.abs s)).
  change (Qabs (1 # 32768)) with (1 # 32768).
  rewrite Zle_Qle, inject_Z_mult in H.
  change (inject_Z (2 ^ 24)) with 16777216 in H.
  setoid_replace (inject_Z (Z.abs (f - s)) * (1 # 32768) * 16777216)
    with (inject_Z (Z.abs (f - s)) * 16777216 * (1 # 32768)) by ring.
  apply Qmult_le_compat_r; [exact H | discriminate].
Qed.

Lemma int16_float32_exact (s : Z) : int16 s -> float32_exact s.
Proof.
  unfold int16, float32_exact. change (2 ^ 24)%Z with 16777216%Z. lia.
Qed.

Lemma to_float_range (s : Z) : int16 s -> -1 <= to_float s /\ to_float s < 1.
Proof.
  intro H16. rewrite (to_float_exact s (int16_float32_exact s H16)).
  revert H16. unfold int16. intros [Hlo Hhi]. split.
  - apply Qle_shift_div_l; [reflexivity|].
    setoid_replace (-1 * 32768) with (inject_Z (-32768)) by reflexivity.
    now rewrite <- Zle_Qle.
  - apply Qlt_shift_div_r; [reflexivity|].
    setoid_replace (1 * 32768) with (inject_Z 32768) by reflexivity.
    rewrite <- Zlt_Qlt. lia.
Qed.

(** The stereo branch of [process_with_pydub]: an even number of interleaved
    samples is split into its even-position samples (operator) and
    odd-position samples (customer), each converted to float32 and divided
    by 32768, with the frame rate passed through; the two integer columns
    interleaved are the decoded samples again.  Samples below 2^24 in
    magnitude (all 8- and 16-bit audio) come out as exactly [sample / 32768],
    and 16-bit samples land in [-1, 1); a wider sample is first rounded to a
    24-bit significand, which moves the result by at most a 2^-24 part of
    the exact quotient.  An odd number of samples makes the reshape raise
    ValueError. *)
Theorem process_with_pydub_stereo (samples : list Z) (frame_rate : Z) :
  (Nat.even (length samples) = true ->
   exists l r,
     process_with_pydub samples frame_rate 2
     = Ok (map to_float l, map to_float r, frame_rate)
     /\ interleave_columns l r = samples
     /\ length l = (length samples / 2)%nat
     /\ length r = (length samples / 2)%nat
     /\ (forall k, (k < length samples / 2)%nat ->
                   nth k (map to_float l) 0 = to_float (nth (2 * k) samples 0%Z)
                   /\ nth k (map to_float r) 0 = to_float (nth (2 * k + 1) samples 0%Z))
     /\ (Forall float32_exact samples ->
         map to_float l = map (fun s => inject_Z s / 32768) l
         /\ map to_float r = map (fun s => inject_Z s / 32768) r)
     /\ Forall (fun s => Qabs (to_float s - inject_Z s / 32768) * 16777216
                         <= Qabs (inject_Z s / 32768)) (l ++ r)
     /\ (Forall int16 samples ->
         Forall (fun x => -1 <= x /\ x < 1) (map to_float l ++ map to_float r)))
  /\ (Nat.even (length samples) = false ->
      process_with_pydub samples frame_rate 2 = Raise ValueError).
Proof.
  destruct (reshape_columns_spec samples) as [He Ho]. split.
  - intro H. destruct (He H) as (l & r & E & Ll & Lr & Hi & Hn).
    exists l, r. unfold process_with_pydub. simpl. rewrite E. simpl.
    split; [reflexivity|]. split; [exact Hi|]. split; [exact Ll|]. split; [exact Lr|].
    assert (forall s, In s l \/ In s r -> In s samples) as Hsub.
    { intros s Hs. rewrite <- Hi. apply interleave_columns_In; [exact Hs | congruence]. }
    split; [|split; [|split]].
    + intros k Hk. destruct (Hn k Hk) as [Hl Hr].
      rewrite (nth_indep (map to_float l) 0 (to_float 0%Z))
        by (rewrite length_map, Ll; exact Hk).
      rewrite (nth_indep (map to_float r) 0 (to_float 0%Z))
        by (rewrite length_map, Lr; exact Hk).
      rewrite !map_nth, Hl, Hr. split; reflexivity.
    + intro Hexact. rewrite Forall_forall in Hexact.
      split; apply map_ext_in; intros s Hs; apply to_float_exact, Hexact, Hsub;
        [now left | now right].
    + apply Forall_forall. intros s _. apply to_float_error.
    + intro Hrange.
      rewrite Forall_forall in Hrange. apply Forall_forall. intros q Hq.
      apply in_app_iff in Hq. rewrite !in_map_iff in Hq.
      destruct Hq as [(s & <- & Hs)|(s & <- & Hs)];
        apply to_float_range, Hrange, Hsub; [now left | now right].
  - intro H. unfold process_with_pydub. simpl. now rewrite (Ho H).
Qed.

Lemma process_with_pydub_stereo_witness :
  (exists l r,
      process_with_pydub [16384; -32768; 0; 8192]%Z 8000 2
      = Ok (map to_float l, map to_float r, 8000%Z)
      /\ interleave_columns l r = [16384; -32768; 0; 8192]%Z
      /\ map to_float l = map (fun s => inject_Z s / 32768) l
      /\ Forall (fun x => -1 <= x /\ x < 1) (map to_float l ++ map to_float r))
  /\ (exists l r,
         process_with_pydub [16777217; 2147483647]%Z 44100 2
         = Ok (map to_float l, map to_float r, 44100%Z)
         /\ nth 0 (map to_float l) 0 == 512
         /\ nth 0 (map to_float r) 0 == 65536)
  /\ process_with_pydub [16384; -32768; 0]%Z 8000 2 = Raise ValueError.
Proof.
  split; [|split].
  - destruct (proj1 (process_with_pydub_stereo [16384; -32768; 0; 8192]%Z 8000))
      as (l & r & E & Hi & _ & _ & _ & Hx & _ & Hr); [reflexivity|].
    exists l, r. split; [exact E|]. split; [exact Hi|]. split.
    + apply Hx. repeat constructor.
    + apply Hr. repeat constructor; discriminate.
  - destruct (proj1 (process_with_pydub_stereo [16777217; 2147483647]%Z 44100))
      as (l & r & E & _ & _ & _ & Hn & _); [reflexivity|].
    exists l, r. split; [exact E|].
    destruct (Hn 0%nat) as [-> ->]; [simpl; lia|]. split; reflexivity.
  - apply (proj2 (process_with_pydub_stereo [16384; -32768; 0]%Z 8000)). reflexivity.
Defined.

(** ** Normalisation: range and gain *)

Lemma np_max_abs_result (signal : list Q) :
  signal <> [] -> exists m, np_max (np_abs signal) = Ok m /\ is_max m (np_abs signal) /\ 0 <= m.
Proof.
  intro Hne. destruct (np_max_total (np_abs signal) (np_abs_nonempty _ Hne)) as [m E].
  exists m. split; [exact E|]. pose proof (np_max_is_max _ _ E) as Hmax.
  split; [exact Hmax|]. destruct Hmax as [_ (a & Hin & <-)].
  unfold np_abs in Hin. apply in_map_iff in Hin as (x & <- & _). apply Qabs_nonneg.
Qed.

Lemma div_sign (x m : Q) :
  0 < m -> (0 < x <-> 0 < x / m) /\ (x == 0 <-> x / m == 0).
Proof.
  intro Hm.
  assert (x == x / m * m) as Hx by (field; intro E; rewrite E in Hm; discriminate Hm).
  split; split; intro H.
  - apply Qlt_shift_div_l; [exact Hm|]. now rewrite Qmult_0_l.
  - rewrite Hx. now apply Qmult_lt_0_compat.
  - rewrite H. unfold Qdiv. apply Qmult_0_l.
  - rewrite Hx, H. apply Qmult_0_l.
Qed.

(** Whatever [normalize_audio] returns has the length of its input, every
    sample within [-1, 1] unless the input was all-zero, and, position by
    position, the sign of the input sample: positive stays positive, zero
    stays zero. *)
Theorem normalize_audio_range (signal out : list Q) :
  normalize_audio signal = Ok out ->
  length out = length signal
  /\ ((exists x, In x signal /\ ~ x == 0) ->
      Forall (fun y => -1 <= y /\ y <= 1) out)
  /\ Forall2 (fun x y => (0 < x <-> 0 < y) /\ (x == 0 <-> y == 0)) signal out.
Proof.
  unfold normalize_audio.
  destruct (np_max (np_abs signal)) as [m|e] eqn:E; simpl; [|discriminate].
  pose proof (np_max_is_max _ _ E) as Hmax.
  destruct (Qgtb m 0) eqn:G; intros [= <-].
  - apply Qgtb_spec in G. split; [apply length_map|]. split.
    + intros _. destruct (scaled_peak signal m G Hmax) as [Hle _].
      apply Forall_forall. intros y Hy.
      assert (- (1) <= y <= 1) as H; [|exact H].
      apply Qabs_Qle_condition. apply Hle. unfold np_abs. now apply in_map.
    + clear E Hmax. induction signal as [|x l IH]; constructor; [|exact IH].
      now apply div_sign.
  - apply Qgtb_false in G. split; [reflexivity|]. split.
    + intros (x & Hx & Hnz). exfalso. apply Hnz.
      pose proof (zero_peak_all_zero _ _ Hmax G) as Hz.
      rewrite Forall_forall in Hz. now apply Hz.
    + clear. induction signal; constructor; [tauto | assumption].
Qed.

Lemma normalize_audio_range_witness :
  exists out,
    normalize_audio [0.5; -0.25; 0] = Ok out
    /\ length out = 3%nat
    /\ Forall (fun y => -1 <= y /\ y <= 1) out.
Proof.
  destruct (normalize_audio [0.5; -0.25; 0]) as [out|e] eqn:E;
    [|vm_compute in E; discriminate E].
  exists out. split; [reflexivity|].
  destruct (normalize_audio_range [0.5; -0.25; 0] out E) as (Hl & Hr & _).
  split; [exact Hl|]. apply Hr. exists 0.5. split; [now left | discriminate].
Defined.

Lemma signal_eq_pointwise (f g : Q -> Q) (signal : list Q) :
  (forall x, In x signal -> f x == g x) -> signal_eq (map f signal) (map g signal).
Proof.
  induction signal as [|x s IH]; intro H; constructor.
  - apply H. now left.
  - apply IH. intros; apply H; now right.
Qed.

Lemma scaled_abs_max (c m : Q) (signal : list Q) :
  0 < c -> is_max m (np_abs signal) ->
  is_max (c * m) (np_abs (map (Qmult c) signal)).
Proof.
  intros Hc [Hle (a & Hin & Ha)]. unfold np_abs in *. split.
  - intros y Hy. apply in_map_iff in Hy as (z & <- & Hz).
    apply in_map_iff in Hz as (x & <- & Hx).
    rewrite Qabs_Qmult, (Qabs_pos c) by now apply Qlt_le_weak.
    apply Qmult_le_l; [exact Hc|]. apply Hle. now apply in_map.
  - apply in_map_iff in Hin as (x & Hxa & Hx).
    exists (Qabs (c * x)). split.
    + apply in_map. apply (in_map (Qmult c)). exact Hx.
    + rewrite Qabs_Qmult, (Qabs_pos c), Hxa, Ha by now apply Qlt_le_weak.
      reflexivity.
Qed.

(** Gain does not matter to [normalize_audio]: a signal multiplied by any
    positive factor normalises to the same samples (and the empty signal
    raises either way). *)
Theorem normalize_audio_gain (c : Q) (signal : list Q) :
  0 < c ->
  outcome_eq (normalize_audio (map (Qmult c) signal)) (normalize_audio signal).
Proof.
  intro Hc. destruct signal as [|x0 l] eqn:Es; [reflexivity|].
  rewrite <- Es.
  assert (signal <> []) as Hne by (rewrite Es; discriminate).
  clear Es x0 l.
  destruct (np_max_abs_result signal Hne) as (m & E & Hmax & Hm0).
  destruct (np_max_abs_result (map (Qmult c) signal)) as (m' & E' & Hmax' & _);
    [destruct signal; [congruence | discriminate]|].
  assert (m' == c * m) as Hm'
      by (eapply is_max_unique; [exact Hmax' | now apply scaled_abs_max]).
  unfold normalize_audio. rewrite E, E'. simpl.
  destruct (Qgtb m 0) eqn:G.
  - apply Qgtb_spec in G.
    assert (Qgtb m' 0 = true) as ->
        by (apply Qgtb_spec; rewrite Hm'; now apply Qmult_lt_0_compat).
    simpl. rewrite map_map. apply signal_eq_pointwise. intros x _.
    rewrite Hm'. field. split; intro Ez; [rewrite Ez in G | rewrite Ez in Hc];
      discriminate.
  - apply Qgtb_false in G.
    assert (m == 0) as Hz by (apply Qle_antisym; assumption).
    assert (Qgtb m' 0 = false) as ->
        by (apply Qgtb_false; rewrite Hm', Hz, Qmult_0_r; apply Qle_refl).
    simpl. pose proof (zero_peak_all_zero _ _ Hmax G) as Hall.
    rewrite <- (map_id signal) at 2. apply signal_eq_pointwise. intros x Hx.
    rewrite Forall_forall in Hall. rewrite (Hall x Hx). apply Qmult_0_r.
Qed.

Lemma normalize_audio_gain_witness :
  outcome_eq (normalize_audio (map (Qmult 5) [0.001; -0.002]))
             (normalize_audio [0.001; -0.002]).
Proof.
  apply normalize_audio_gain. reflexivity.
Defined.

(** ** The speech band of the enhancement step *)

Lemma bandpass_cutoffs_upper_witness :
  exists low high,
    bandpass_cutoffs 300 3400 8000 = Ok (low, high)
    /\ low < high /\ high <= 0.249 /\ 0.01 <= high - low.
Proof.
  destruct (bandpass_cutoffs_upper 300 3400 8000) as (low & high & E & H1 & H2 & H3 & _);
    [lia|].
  exists low, high. repeat split; assumption.
Defined.

(** [analyze_and_enhance_audio] filters with [bandpass_filter(audio, 85, 255,
    sample_rate)].  For every sample rate from 200 Hz to 56666 Hz the
    cut-offs handed to the filter design for that band lie in the safe
    range: 0.001 <= low < high <= 0.249. *)
Theorem speech_band_cutoffs_safe (sample_rate : Z) :
  (200 <= sample_rate <= 56666)%Z ->
  exists low high,
    bandpass_cutoffs 85 255 sample_rate = Ok (low, high)
    /\ 0.001 <= low /\ low < high /\ high <= 0.249.
Proof.
  intros [Hlo Hhi]. unfold bandpass_cutoffs.
  set (nyquist := 0.5 * inject_Z sample_rate).
  assert (100 <= nyquist /\ nyquist <= 28333) as [Hny Hny2].
  { unfold nyquist. rewrite Zle_Qle in Hlo, Hhi. split.
    - setoid_replace 100 with (0.5 * inject_Z 200) by reflexivity.
      apply Qmult_le_l; [reflexivity | exact Hlo].
    - setoid_replace 28333 with (0.5 * inject_Z 56666) by reflexivity.
      apply Qmult_le_l; [reflexivity | exact Hhi]. }
  destruct (Qeq_bool nyquist 0) eqn:Ez.
  { apply Qeq_bool_eq in Ez. rewrite Ez in Hny. lra. }
  set (lc := Qmax 20 (Qmin 85 (nyquist * 0.25 * 0.8))).
  set (hc := Qmax (lc + 30) (Qmin 255 (nyquist * 0.25))).
  assert (20 <= lc) as Hlc20 by apply Q.le_max_l.
  assert (lc + 30 <= hc) as Hhc by apply Q.le_max_l.
  assert (lc <= nyquist * 0.2) as Hlc.
  { unfold lc. apply Q.max_lub; [lra|].
    apply Qle_trans with (nyquist * 0.25 * 0.8); [apply Q.le_min_r | lra]. }
  assert (0.012 * nyquist <= lc + hc) as Hsum.
  { destruct (Qlt_le_dec 5833 nyquist) as [Hbig|Hsmall]; [|lra].
    assert (85 <= lc).
    { apply Qle_trans with (Qmin 85 (nyquist * 0.25 * 0.8)); [|apply Q.le_max_r].
      apply Q.min_glb; lra. }
    assert (255 <= hc).
    { apply Qle_trans with (Qmin 255 (nyquist * 0.25)); [|apply Q.le_max_r].
      apply Q.min_glb; lra. }
    lra. }
  set (low0 := lc / nyquist). set (high0 := hc / nyquist).
  assert (low0 <= 0.2) as Hlow0 by (apply Qle_shift_div_r; lra).
  assert (0.012 <= low0 + high0) as Hsum0.
  { setoid_replace (low0 + high0) with ((lc + hc) / nyquist)
      by (unfold low0, high0; field; lra).
    apply Qle_shift_div_l; lra. }
  set (low := Qmax 0.001 (Qmin low0 0.249)).
  set (high := Qmax (low + 0.001) (Qmin high0 0.249)).
  assert (0.001 <= low) as L1 by apply Q.le_max_l.
  assert (low0 <= low) as L0.
  { apply Qle_trans with (Qmin low0 0.249); [|apply Q.le_max_r].
    apply Q.min_glb; lra. }
  assert (low <= 0.2) as L2.
  { unfold low. apply Q.max_lub; [lra|].
    apply Qle_trans with low0; [apply Q.le_min_l | exact Hlow0]. }
  assert (low + 0.001 <= high) as H1 by apply Q.le_max_l.
  assert (high <= 0.249) as H2.
  { unfold high. apply Q.max_lub; [lra | apply Q.le_min_r]. }
  assert (Qmin high0 0.249 <= high) as H3 by apply Q.le_max_r.
  assert (0.012 <= low + high \/ 0.01 <= high - low) as Hwide.
  { destruct (Qlt_le_dec high0 0.249) as [Hh|Hh].
    - left. assert (high0 <= Qmin high0 0.249) by (apply Q.min_glb; lra). lra.
    - right. assert (0.249 <= Qmin high0 0.249) by (apply Q.min_glb; lra). lra. }
  clearbody low high.
  destruct (Qltb (high - low) 0.01) eqn:Enarrow.
  - apply Qltb_spec in Enarrow.
    exists ((low + high) / 2 - 0.005), ((low + high) / 2 + 0.005).
    split; [reflexivity|].
    assert ((low + high) / 2 == (low + high) * 0.5) as Emid by field.
    rewrite !Emid. destruct Hwide as [Hw|Hw]; [|lra].
    split; [lra|]. split; lra.
  - unfold Qltb in Enarrow. apply Qgtb_false in Enarrow.
    exists low, high. split; [reflexivity|].
    split; [lra|]. split; lra.
Qed.

Lemma speech_band_cutoffs_safe_witness :
  exists low high,
    bandpass_cutoffs 85 255 44100 = Ok (low, high)
    /\ 0.001 <= low /\ low < high /\ high <= 0.249.
Proof.
  apply speech_band_cutoffs_safe. lia.
Defined.

(** ** Shape of the diarization outputs *)

Lemma normalize_audio_bounded (signal out : list Q) :
  normalize_audio signal = Ok out ->
  length out = length signal /\ Forall (fun y => -1 <= y /\ y <= 1) out.
Proof.
  unfold normalize_audio.
  destruct (np_max (np_abs signal)) as [m|e] eqn:E; simpl; [|discriminate].
  pose proof (np_max_is_max _ _ E) as Hmax.
  destruct (Qgtb m 0) eqn:G; intros [= <-].
  - apply Qgtb_spec in G. split; [apply length_map|].
    destruct (scaled_peak signal m G Hmax) as [Hle _].
    apply Forall_forall. intros y Hy.
    assert (- (1) <= y <= 1) as H; [|exact H].
    apply Qabs_Qle_condition. apply Hle. unfold np_abs. now apply in_map.
  - apply Qgtb_false in G. split; [reflexivity|].
    pose proof (zero_peak_all_zero _ _ Hmax G) as Hz.
    apply Forall_forall. intros y Hy. rewrite Forall_forall in Hz.
    rewrite (Hz y Hy). split; discriminate.
Qed.

Lemma np_mul_length (a b : list Q) : length (np_mul a b) = Nat.min (length a) (length b).
Proof.
  revert b. induction a as [|x a IH]; intros [|y b]; simpl; auto.
Qed.

(** The outputs of the steps after normalisation, when they succeed. *)
Lemma separate_steps_ok (audio : list Q) (sample_rate : Z) (op cu : list Q) (sr : Z) :
  separate_steps audio sample_rate = Ok (op, cu, sr) ->
  sr = sample_rate
  /\ exists operator_mask customer_mask,
       speaker_masks audio sample_rate = Ok (operator_mask, customer_mask)
       /\ normalize_audio (np_mul audio operator_mask) = Ok op
       /\ normalize_audio (np_mul audio customer_mask) = Ok cu.
Proof.
  unfold separate_steps.
  destruct (speaker_masks audio sample_rate) as [[opm cum]|e]; simpl; [|discriminate].
  destruct (normalize_audio (np_mul audio opm)) as [o|e] eqn:Eo; simpl; [|discriminate].
  destruct (normalize_audio (np_mul audio cum)) as [c|e] eqn:Ec; simpl; [|discriminate].
  intros [= <- <- <-]. split; [reflexivity|]. exists opm, cum.
  split; [reflexivity|]. split; assumption.
Qed.

(** Whatever happens inside, [separate_speakers_from_mono] returns the
    sample rate it was given and two signals of the length of its input,
    with every sample within [-1, 1]. *)
Theorem separate_speakers_shape (audio : list Q) (sample_rate : Z) :
  exists operator_audio customer_audio,
    separate_speakers_from_mono audio sample_rate
    = (operator_audio, customer_audio, sample_rate)
    /\ length operator_audio = length audio
    /\ length customer_audio = length audio
    /\ Forall (fun y => -1 <= y /\ y <= 1) operator_audio
    /\ Forall (fun y => -1 <= y /\ y <= 1) customer_audio.
Proof.
  unfold separate_speakers_from_mono.
  destruct (normalize_audio audio) as [normalized|e] eqn:En.
  - destruct (normalize_audio_bounded _ _ En) as [Hl Hr].
    destruct (separate_steps normalized sample_rate) as [[[op cu] sr]|e'] eqn:Es; simpl.
    + apply separate_steps_ok in Es as (-> & opm & cum & Em & Eo & Ec).
      destruct (speaker_masks_partition _ _ _ _ Em) as (Lo & Lc & _).
      destruct (normalize_audio_bounded _ _ Eo) as [Hlo Hro].
      destruct (normalize_audio_bounded _ _ Ec) as [Hlc Hrc].
      exists op, cu. rewrite np_mul_length in Hlo, Hlc.
      repeat split; trivial; lia.
    + exists normalized, normalized. repeat split; trivial.
  - exists audio, audio. unfold normalize_audio in En.
    destruct audio as [|x l]; [repeat split; constructor|].
    simpl in En. destruct (Qgtb _ 0); discriminate En.
Qed.

(** ** When the diarization falls back *)

Lemma hop_length_positive (sample_rate : Z) :
  (1 <= hop_length_of sample_rate <-> 100 <= sample_rate)%Z.
Proof.
  unfold hop_length_of. split; intro H.
  - destruct (Z.lt_ge_cases sample_rate 100) as [Hlt|]; [|assumption].
    destruct (Z.lt_ge_cases sample_rate 0) as [Hneg|Hpos].
    + assert (sample_rate * 10 ÷ 1000 <= 0 ÷ 1000)%Z by (apply Z.quot_le_mono; lia).
      rewrite Z.quot_0_l in *; lia.
    + rewrite Z.quot_small in H; lia.
  - assert (1000 ÷ 1000 <= sample_rate * 10 ÷ 1000)%Z by (apply Z.quot_le_mono; lia).
    rewrite Z.quot_same in *; lia.
Qed.

Lemma np_max_nonempty (l : list Q) : l <> [] -> exists m, np_max l = Ok m.
Proof. destruct l; [congruence | intros _; eexists; reflexivity]. Qed.

Lemma np_min_nonempty (l : list Q) : l <> [] -> exists m, np_min l = Ok m.
Proof. destruct l; [congruence | intros _; eexists; reflexivity]. Qed.

Lemma normalize_audio_nonempty (signal : list Q) :
  signal <> [] -> exists out, normalize_audio signal = Ok out.
Proof.
  intro H. unfold normalize_audio.
  destruct (np_max_nonempty (np_abs signal) (np_abs_nonempty _ H)) as [m ->].
  simpl. destruct (Qgtb m 0); eexists; reflexivity.
Qed.

(** The mask construction raises exactly when the framing does: for a
    sample rate below 100 Hz (hop of 0 samples) or a signal shorter than one
    25 ms frame. *)
Lemma speaker_masks_outcome (audio : list Q) (sample_rate : Z) :
  ((100 <= sample_rate)%Z /\ (frame_length_of sample_rate <= Z.of_nat (length audio))%Z ->
   exists masks, speaker_masks audio sample_rate = Ok masks)
  /\ ((sample_rate < 100)%Z \/ (Z.of_nat (length audio) < frame_length_of sample_rate)%Z ->
      speaker_masks audio sample_rate = Raise ParameterError).
Proof.
  unfold speaker_masks, librosa_frame. split.
  - intros [Hsr Hlen].
    destruct (Z.ltb_spec (Z.of_nat (length audio)) (frame_length_of sample_rate)); [lia|].
    apply hop_length_positive in Hsr.
    destruct (Z.ltb_spec (hop_length_of sample_rate) 1); [lia|].
    cbn [bind]. unfold frame_energy.
    set (energy := map _ (map _ (seq 0 (n_frames _ _ _)))).
    assert (energy <> []) as Hne by (unfold energy, n_frames; simpl; discriminate).
    destruct (np_min_nonempty energy Hne) as [lo ->].
    destruct (np_max_nonempty energy Hne) as [hi ->].
    cbn [bind]. eexists. reflexivity.
  - intros [Hsr|Hlen].
    + destruct (Z.ltb_spec (Z.of_nat (length audio)) (frame_length_of sample_rate));
        [reflexivity|].
      destruct (Z.ltb_spec (hop_length_of sample_rate) 1); [reflexivity|].
      apply hop_length_positive in H0. lia.
    + destruct (Z.ltb_spec (Z.of_nat (length audio)) (frame_length_of sample_rate));
        [reflexivity | lia].
Qed.

(** On a non-empty signal [separate_speakers_from_mono] falls back exactly
    when the sample rate is below 100 Hz or the signal is shorter than one
    25 ms frame, and then returns the normalised signal twice; otherwise it
    returns the normalised signal weighted by each mask and normalised
    again. *)
Theorem separate_speakers_fallback_condition (audio : list Q) (sample_rate : Z) :
  audio <> [] ->
  exists normalized,
    normalize_audio audio = Ok normalized
    /\ ((sample_rate < 100)%Z
        \/ (Z.of_nat (length audio) < frame_length_of sample_rate)%Z ->
        separate_speakers_from_mono audio sample_rate
        = (normalized, normalized, sample_rate))
    /\ ((100 <= sample_rate)%Z
        /\ (frame_length_of sample_rate <= Z.of_nat (length audio))%Z ->
        exists operator_mask customer_mask operator_audio customer_audio,
          speaker_masks normalized sample_rate = Ok (operator_mask, customer_mask)
          /\ normalize_audio (np_mul normalized operator_mask) = Ok operator_audio
          /\ normalize_audio (np_mul normalized customer_mask) = Ok customer_audio
          /\ separate_speakers_from_mono audio sample_rate
             = (operator_audio, customer_audio, sample_rate)).
Proof.
  intro Hne. destruct (normalize_audio_nonempty audio Hne) as [normalized En].
  destruct (normalize_audio_bounded _ _ En) as [Hl _].
  exists normalized. split; [exact En|].
  destruct (speaker_masks_outcome normalized sample_rate) as [Hok Hraise].
  rewrite Hl in Hok, Hraise. unfold separate_speakers_from_mono. rewrite En. split.
  - intro H. unfold separate_steps. rewrite (Hraise H). reflexivity.
  - intro H. destruct (Hok H) as [[opm cum] Em].
    destruct (speaker_masks_partition _ _ _ _ Em) as (Lo & Lc & _).
    assert (normalized <> []) as Hn by (destruct normalized, audio; simpl in *; congruence).
    destruct (normalize_audio_nonempty (np_mul normalized opm)) as [op Eo].
    { intro E. apply (f_equal (@length Q)) in E.
      rewrite np_mul_length, Lo, Nat.min_id in E.
      apply Hn. now apply length_zero_iff_nil. }
    destruct (normalize_audio_nonempty (np_mul normalized cum)) as [cu Ec].
    { intro E. apply (f_equal (@length Q)) in E.
      rewrite np_mul_length, Lc, Nat.min_id in E.
      apply Hn. now apply length_zero_iff_nil. }
    exists opm, cum, op, cu. split; [exact Em|]. split; [exact Eo|]. split; [exact Ec|].
    unfold separate_steps. rewrite Em. cbn [bind]. rewrite Eo. cbn [bind]. rewrite Ec.
    reflexivity.
Qed.

Lemma separate_speakers_fallback_condition_witness :
  exists normalized,
    normalize_audio [0.5; -0.25] = Ok normalized
    /\ separate_speakers_from_mono [0.5; -0.25] 8000 = (normalized, normalized, 8000%Z).
Proof.
  destruct (separate_speakers_fallback_condition [0.5; -0.25] 8000)
    as (normalized & En & Hfall & _); [discriminate|].
  exists normalized. split; [exact En|]. apply Hfall. right. vm_compute. reflexivity.
Defined.

(** ** Range of the diarization masks *)

(** Up to position [c] neither mask is below 0.2. *)
Definition floor_upto (len c : nat) (masks : list Q * list Q) : Prop :=
  length (fst masks) = len /\ length (snd masks) = len /\
  forall k, (k < c)%nat -> 0.2 <= nth k (fst masks) 0 /\ 0.2 <= nth k (snd masks) 0.

(** A ramp stays above any bound both its end points respect. *)
Lemma np_linspace_floor (lo a b : Q) (num j : nat) :
  lo <= a -> lo <= b -> (j < num)%nat -> lo <= nth j (np_linspace a b num) 0.
Proof.
  intros Ha Hb Hj. destruct num as [|[|n]]; [lia| |].
  - destruct j; [exact Ha | lia].
  - unfold np_linspace.
    set (f := fun k : nat => a + inject_Z (Z.of_nat k) * ((b - a) / inject_Z (Z.of_nat (S n)))).
    rewrite (nth_indep _ 0 (f O)) by (rewrite length_map, length_seq; lia).
    rewrite map_nth, seq_nth by lia. simpl Nat.add. unfold f.
    set (J := inject_Z (Z.of_nat j)). set (N := inject_Z (Z.of_nat (S n))).
    assert (0 <= J) as HJ0 by (unfold J; rewrite <- (Zle_Qle 0); lia).
    assert (J <= N) as HJN by (unfold J, N; rewrite <- Zle_Qle; lia).
    assert (0 < N) as HN by (unfold N; rewrite <- (Zlt_Qlt 0); lia).
    setoid_replace (a + J * ((b - a) / N)) with (((N - J) * a + J * b) / N)
      by (field; lra).
    apply Qle_shift_div_l; [exact HN|].
    assert (lo * (N - J) <= a * (N - J)) by (apply Qmult_le_compat_r; lra).
    assert (lo * J <= b * J) by (apply Qmult_le_compat_r; lra).
    lra.
Qed.

Section MaskFloor.

Variables (len hop fl trans : nat).

Lemma floor_zeros : floor_upto len 0 (repeat 0 len, repeat 0 len).
Proof.
  unfold floor_upto; simpl. rewrite repeat_length. repeat split; lia.
Qed.

Lemma assign_frame_floor (energy : list Q) (threshold : Q)
      (masks : list Q * list Q) (c i : nat) :
  floor_upto len c masks ->
  (i * hop <= c)%nat -> (i * hop + fl <= len)%nat ->
  floor_upto len (i * hop + fl) (assign_frame energy threshold hop fl len masks i).
Proof.
  intros [Lo [Lc H]] Hs Hl. destruct masks as [op cu]. simpl in Lo, Lc, H.
  unfold assign_frame. rewrite Nat.min_l by lia.
  replace (i * hop + fl - i * hop)%nat with fl by lia.
  assert (forall x y : Q, 0.2 <= x -> 0.2 <= y ->
            floor_upto len (i * hop + fl)
              (set_slice op (i * hop) (repeat x fl), set_slice cu (i * hop) (repeat y fl)))
    as Hxy.
  { intros x y Hx Hy. unfold floor_upto; simpl.
    rewrite !set_slice_length. split; [exact Lo|]. split; [exact Lc|].
    intros k Hk. destruct (Nat.lt_ge_cases k (i * hop)) as [Hlt|Hge].
    - rewrite !nth_set_slice_outside by lia. apply H. lia.
    - rewrite !nth_set_slice_inside by (rewrite ?repeat_length; lia).
      rewrite !nth_repeat_const by lia. now split. }
  destruct (Qgtb (nth i energy 0) threshold); apply Hxy; discriminate.
Qed.

Lemma crossfade_frame_floor (masks : list Q * list Q) (c i : nat) :
  floor_upto len c masks ->
  (1 <= i * hop)%nat -> (i * hop < c)%nat -> (i * hop + trans <= c)%nat -> (c <= len)%nat ->
  floor_upto len c (crossfade_frame hop trans len masks i).
Proof.
  intros [Lo [Lc H]] H1 Hs Ht Hl. destruct masks as [op cu]. simpl in Lo, Lc, H.
  unfold crossfade_frame. rewrite Nat.min_l by lia.
  replace (i * hop + trans - i * hop)%nat with trans by lia.
  unfold floor_upto; simpl. rewrite !set_slice_length.
  split; [exact Lo|]. split; [exact Lc|]. intros k Hk.
  destruct (Nat.lt_ge_cases k (i * hop)) as [Hlt|Hge];
    [|destruct (Nat.lt_ge_cases k (i * hop + trans)) as [Hin|Hout]].
  - rewrite !nth_set_slice_outside by lia. apply H. lia.
  - rewrite !nth_set_slice_inside by (rewrite ?np_linspace_length; lia).
    split; apply np_linspace_floor; try lia; apply H; lia.
  - rewrite !nth_set_slice_outside by (rewrite np_linspace_length; lia). apply H. lia.
Qed.

Hypothesis hop_le_fl : (hop <= fl)%nat.

Lemma assign_loop_floor (energy : list Q) (threshold : Q) (n a : nat)
      (masks : list Q * list Q) :
  floor_upto len (reached hop fl a) masks ->
  (a + n = 0 \/ (a + n - 1) * hop + fl <= len)%nat ->
  floor_upto len (reached hop fl (a + n))
    (fold_left (assign_frame energy threshold hop fl len) (seq a n) masks).
Proof.
  revert a masks. induction n as [|n IH]; intros a masks Hinv Hlen; simpl.
  - now rewrite Nat.add_0_r.
  - replace (a + S n)%nat with (S a + n)%nat in * by lia.
    apply IH; [|exact Hlen].
    assert (a * hop + fl <= len)%nat as Ha.
    { destruct Hlen as [Hlen|Hlen]; [lia|].
      replace (S a + n - 1)%nat with (a + n)%nat in Hlen by lia. nia. }
    simpl reached. apply assign_frame_floor with (c := reached hop fl a); trivial.
    destruct a; simpl; lia.
Qed.

Hypothesis hop_pos : (1 <= hop)%nat.
Hypothesis fl_pos : (1 <= fl)%nat.
Hypothesis trans_le_fl : (trans <= fl)%nat.

Lemma crossfade_loop_floor (n a c : nat) (masks : list Q * list Q) :
  floor_upto len c masks -> (1 <= a)%nat ->
  (n = 0 \/ (a + n - 1) * hop + fl <= c)%nat -> (c <= len)%nat ->
  floor_upto len c (fold_left (crossfade_frame hop trans len) (seq a n) masks).
Proof.
  revert a masks. induction n as [|n IH]; intros a masks Hinv Ha Hc Hl; simpl.
  - exact Hinv.
  - destruct Hc as [Hc|Hc]; [lia|].
    assert (a * hop + fl <= c)%nat as Hac by nia.
    apply IH; [|lia| |exact Hl].
    + apply crossfade_frame_floor; trivial; nia.
    + destruct n; [now left|right].
      replace (S a + S n - 1)%nat with (a + S (S n) - 1)%nat by lia. exact Hc.
Qed.

End MaskFloor.

(** At every sample position covered by an analysis frame both masks stay
    between 0.2 and 0.8, cross-fades included: inside the frames neither
    speaker is ever muted nor passed at full weight. *)
Theorem speaker_masks_range (audio : list Q) (sample_rate : Z)
        (operator_mask customer_mask : list Q) :
  speaker_masks audio sample_rate = Ok (operator_mask, customer_mask) ->
  forall k, (k < covered_end (length audio) sample_rate)%nat ->
    (0.2 <= nth k operator_mask 0 /\ nth k operator_mask 0 <= 0.8)
    /\ (0.2 <= nth k customer_mask 0 /\ nth k customer_mask 0 <= 0.8).
Proof.
  intro Hm. pose proof (speaker_masks_partition _ _ _ _ Hm) as (_ & _ & Hcovlen & Hsum).
  revert Hm. unfold speaker_masks.
  destruct (librosa_frame audio _ _) as [frames|] eqn:Ef; simpl; [|discriminate].
  destruct (frame_energy frames) as [energy|] eqn:Ee; simpl; [|discriminate].
  apply librosa_frame_ok in Ef as [Hfl [Hhop Hn]].
  apply frame_energy_length in Ee. rewrite Hn in Ee.
  destruct (frame_lengths_ordered _ Hhop) as [Hhf [Ht0 Htf]].
  set (len := length audio) in *.
  set (fl := Z.to_nat (frame_length_of sample_rate)) in *.
  set (hop := Z.to_nat (hop_length_of sample_rate)) in *.
  set (trans := Z.to_nat (transition_length_of sample_rate)).
  assert (fl <= len)%nat as Hfl' by (unfold fl, len; lia).
  assert (1 <= hop)%nat as Hhop' by (unfold hop; lia).
  assert (hop <= fl)%nat as Hhf' by (unfold hop, fl; lia).
  assert (trans <= fl)%nat as Htf' by (unfold trans, fl; lia).
  pose proof (covered_end_le len fl hop Hfl' Hhop') as Hcov.
  assert (covered_end len sample_rate = (n_frames len fl hop - 1) * hop + fl)%nat
    as Ecov by reflexivity.
  assert (length energy = S (n_frames len fl hop - 1)) as En
      by (rewrite Ee; unfold n_frames; lia).
  rewrite Ecov in *.
  match goal with
  | |- context [fold_left (crossfade_frame _ _ _) _ ?m] => set (masks := m)
  end.
  assert (floor_upto len ((n_frames len fl hop - 1) * hop + fl) masks) as Hassign.
  { change ((n_frames len fl hop - 1) * hop + fl)%nat
      with (reached hop fl (0 + S (n_frames len fl hop - 1))).
    unfold masks. rewrite En.
    apply assign_loop_floor; trivial.
    - apply floor_zeros.
    - right. simpl. rewrite Nat.sub_0_r. exact Hcov. }
  assert (floor_upto len ((n_frames len fl hop - 1) * hop + fl)
            (fold_left (crossfade_frame hop trans len) (seq 1 (length energy - 1)) masks))
    as Hfade.
  { apply crossfade_loop_floor with (fl := fl); trivial; [lia|].
    rewrite En. simpl. rewrite Nat.sub_0_r.
    destruct (n_frames len fl hop - 1)%nat eqn:E'; [now left|right].
    simpl. rewrite Nat.sub_0_r. lia. }
  intros [= E]. fold trans in E. rewrite E in Hfade.
  destruct Hfade as (_ & _ & Hfloor).
  intros k Hk. destruct (Hfloor k Hk) as [Fo Fc].
  assert (k < len)%nat as Hklen by lia.
  destruct (Hsum k Hklen) as [Hone _]. specialize (Hone Hk).
  simpl in Fo, Fc. lra.
Qed.

Lemma speaker_masks_range_witness :
  exists operator_mask customer_mask,
    speaker_masks demo_audio 1000 = Ok (operator_mask, customer_mask)
    /\ nth 11 operator_mask 0 == 0.65
    /\ (0.2 <= nth 11 operator_mask 0 /\ nth 11 operator_mask 0 <= 0.8)
    /\ (0.2 <= nth 11 customer_mask 0 /\ nth 11 customer_mask 0 <= 0.8).
Proof.
  eexists. eexists. split.
  - vm_compute. reflexivity.
  - split; [vm_compute; reflexivity|].
    match goal with
    | |- (0.2 <= nth 11 ?op 0 /\ _) /\ (0.2 <= nth 11 ?cu 0 /\ _) =>
        apply (speaker_masks_range demo_audio 1000 op cu)
    end.
    + vm_compute. reflexivity.
    + vm_compute. lia.
Defined.

(** ** Streak counts and the sequence length *)

(** The scan keeps [count] and [current_streak] non-negative, and every
    counted streak has used up [min_length] target labels and the label
    that ended it. *)
Lemma streak_scan_bound (targets : list string) (min_length : Z) (emotions : list string) :
  (0 <= min_length)%Z ->
  forall count current_streak : Z,
    (0 <= count)%Z -> (0 <= current_streak)%Z ->
    let st := fold_left (streak_step targets min_length) emotions (count, current_streak) in
    (0 <= fst st)%Z /\ (0 <= snd st)%Z
    /\ (fst st * (min_length + 1) + snd st
        <= count * (min_length + 1) + current_streak + Z.of_nat (length emotions))%Z.
Proof.
  intro Hm. induction emotions as [|e l IH]; intros count current_streak Hc Hs.
  - simpl. lia.
  - cbn [fold_left length]. cbv zeta.
    set (next := streak_step targets min_length (count, current_streak) e).
    assert (next = if Py.mem e targets then (count, (current_streak + 1)%Z)
                   else ((if (current_streak >=? min_length)%Z
                          then count + 1 else count)%Z, 0%Z)) as En by reflexivity.
    clearbody next. subst next.
    destruct (Py.mem e targets).
    + destruct (IH count (current_streak + 1)%Z) as (A & B & C); [lia | lia |].
      lia.
    + destruct (Z.geb_spec current_streak min_length) as [Hge|Hlt].
      * destruct (IH (count + 1)%Z 0%Z) as (A & B & C); [lia | lia |].
        nia.
      * destruct (IH count 0%Z) as (A & B & C); [lia | lia |].
        lia.
Qed.

Lemma count_emotion_sequences_nonneg (emotions targets : list string) (min_length : Z) :
  (0 <= min_length)%Z -> (0 <= count_emotion_sequences emotions targets min_length)%Z.
Proof.
  intro Hm. unfold count_emotion_sequences.
  pose proof (streak_scan_bound targets min_length emotions Hm 0 0
                ltac:(lia) ltac:(lia)) as H.
  cbv zeta in H. destruct (fold_left _ _ _) as [count current_streak].
  simpl in H. destruct (current_streak >=? min_length)%Z; lia.
Qed.

(** For a minimal length that is not negative, the count is not negative
    and [count * (min_length + 1) <= len(emotions) + 1]: each counted
    streak takes [min_length] labels and, except the last, one label that
    ends it. *)
Theorem count_emotion_sequences_bound (emotions targets : list string) (min_length : Z) :
  (0 <= min_length)%Z ->
  (0 <= count_emotion_sequences emotions targets min_length)%Z
  /\ (count_emotion_sequences emotions targets min_length * (min_length + 1)
      <= Z.of_nat (length emotions) + 1)%Z.
Proof.
  intro Hm. split; [now apply count_emotion_sequences_nonneg|].
  unfold count_emotion_sequences.
  pose proof (streak_scan_bound targets min_length emotions Hm 0 0
                ltac:(lia) ltac:(lia)) as H.
  cbv zeta in H. destruct (fold_left _ _ _) as [count current_streak].
  simpl in H. destruct (Z.geb_spec current_streak min_length); nia.
Qed.

Lemma count_emotion_sequences_bound_witness :
  count_emotion_sequences [negative; negative; neutral; negative; negative] [negative] 2
  = 2%Z
  /\ (count_emotion_sequences [negative; negative; neutral; negative; negative]
                              [negative] 2 * (2 + 1)
      <= Z.of_nat (length [negative; negative; neutral; negative; negative]) + 1)%Z.
Proof.
  split; [reflexivity|].
  apply (count_emotion_sequences_bound
           [negative; negative; neutral; negative; negative] [negative] 2).
  lia.
Defined.

(** ** The quality score never falls below 1 *)

Lemma Qmin_nonneg (a b : Q) : 0 <= a -> 0 <= b -> 0 <= Qmin a b.
Proof. intros. now apply Q.min_glb. Qed.

Lemma score_floor (a b c d r m : Q) :
  0 <= c -> 0 <= d -> 0 <= r ->
  1 <= 5.0 - Qmin 2.0 a - Qmin 1.0 b + Qmin 1.0 c + Qmin 2.0 d + Qmin 2.0 r - Qmin 1.0 m.
Proof.
  intros Hc Hd Hr.
  pose proof (Q.le_min_l 2.0 a). pose proof (Q.le_min_l 1.0 b).
  pose proof (Q.le_min_l 1.0 m).
  assert (0 <= Qmin 1.0 c) by (apply Qmin_nonneg; [discriminate | exact Hc]).
  assert (0 <= Qmin 2.0 d) by (apply Qmin_nonneg; [discriminate | exact Hd]).
  assert (0 <= Qmin 2.0 r) by (apply Qmin_nonneg; [discriminate | exact Hr]).
  set (x1 := Qmin 2.0 a) in *. set (x2 := Qmin 1.0 b) in *.
  set (x3 := Qmin 1.0 c) in *. set (x4 := Qmin 2.0 d) in *.
  set (x5 := Qmin 2.0 r) in *. set (x6 := Qmin 1.0 m) in *.
  clearbody x1 x2 x3 x4 x5 x6. lra.
Qed.

Lemma clamp_floor (score : Q) :
  1 <= score -> 1 <= Qmax 0.0 (Qmin 10.0 score) /\ Qmax 0.0 (Qmin 10.0 score) <= 10.
Proof.
  intro H. split; [|apply clamp_0_10].
  apply Qle_trans with (Qmin 10.0 score); [|apply Q.le_max_r].
  apply Q.min_glb; [discriminate | exact H].
Qed.

Lemma of_int_scaled_nonneg (n : Z) (w : Q) : (0 <= n)%Z -> 0 <= w -> 0 <= of_int n * w.
Proof.
  intros Hn Hw. apply Qmult_le_0_compat; [|exact Hw].
  unfold of_int. rewrite <- (Zle_Qle 0). exact Hn.
Qed.

Lemma rate_nonneg (n : nat) (len : nat) : (0 < len)%nat ->
  0 <= of_int (Z.of_nat n) / of_int (Z.of_nat len) * 3.0.
Proof.
  intro H. apply Qmult_le_0_compat; [|discriminate].
  apply Qle_shift_div_l.
  - unfold of_int. rewrite <- (Zlt_Qlt 0). lia.
  - rewrite Qmult_0_l. unfold of_int. rewrite <- (Zle_Qle 0). lia.
Qed.

(** Every table is scored and the score lies between 1 and 10: the three
    penalties take away at most 2, 1 and 1 of the base 5, so the lower clamp
    at 0 never decides the result. *)
Theorem calculate_call_quality_at_least_one (df : DataFrame) :
  exists score, calculate_call_quality df = Ok score /\ 1 <= score /\ score <= 10.
Proof.
  unfold calculate_call_quality. cbv zeta.
  pose proof (count_emotion_sequences_nonneg (map operator_emotion df) [joy] 2
                ltac:(lia)) as Hop.
  pose proof (count_emotion_sequences_nonneg (map customer_emotion df) [joy] 2
                ltac:(lia)) as Hcp.
  assert (forall bonus : bool, forall s : Q, 1 <= s ->
            exists score, Ok (Qmax 0.0 (Qmin 10.0 (if bonus then s + 2.0 else s)))
                          = Ok score /\ 1 <= score /\ score <= 10) as Hend.
  { intros bonus s Hs. eexists. split; [reflexivity|]. apply clamp_floor.
    destruct bonus; [|exact Hs]. clear - Hs. lra. }
  destruct (Nat.ltb_spec 0 (length df)) as [Hpos|Hzero].
  - rewrite truediv_ok by lia. simpl bind.
    destruct (Nat.ltb_spec 10 (length df)) as [Hbig|Hsmall].
    + destruct (thirds_nonempty df Hbig) as [Hs He].
      rewrite !truediv_ok by lia. simpl bind.
      match goal with
      | |- context [if ?c then Ok (?s + 2.0) else Ok ?s] =>
          replace (if c then Ok (s + 2.0) else Ok s)
            with (Ok (if c then s + 2.0 else s)) by (now destruct c)
      end.
      simpl bind. apply Hend. apply score_floor.
      * apply of_int_scaled_nonneg; [exact Hop | discriminate].
      * apply of_int_scaled_nonneg; [exact Hcp | discriminate].
      * unfold count_if. now apply rate_nonneg.
    + simpl bind. apply (Hend false). apply score_floor.
      * apply of_int_scaled_nonneg; [exact Hop | discriminate].
      * apply of_int_scaled_nonneg; [exact Hcp | discriminate].
      * unfold count_if. now apply rate_nonneg.
  - simpl bind.
    destruct (Nat.ltb_spec 10 (length df)) as [Hbig|Hsmall]; [lia|].
    simpl bind. apply (Hend false). apply score_floor.
    + apply of_int_scaled_nonneg; [exact Hop | discriminate].
    + apply of_int_scaled_nonneg; [exact Hcp | discriminate].
    + discriminate.
Qed.

(** ** Moments the client turns negative, and negative streaks *)

(** The call opens with a negative client label. *)
Definition opens_negative (df : DataFrame) : bool :=
  match df with
  | [] => false
  | r :: _ => String.eqb (customer_emotion r) negative
  end.

(** Number of positions of [labels] holding a negative label whose
    predecessor is not negative; [previous] tells whether the label before
    the first one is negative. *)
Fixpoint turns_negative (previous : bool) (labels : list string) : nat :=
  match labels with
  | [] => O
  | e :: rest =>
      ((if String.eqb e negative && negb previous then 1 else 0)
       + turns_negative (String.eqb e negative) rest)%nat
  end.

Lemma mem_negative (e : string) : Py.mem e [negative] = String.eqb e negative.
Proof. unfold Py.mem. simpl. apply orb_false_r. Qed.

(** Scanning for negative streaks of length at least 1: the streak in
    progress counts once, and so does every later turn to negative. *)
Lemma scan_turns_negative (labels : list string) :
  forall count current_streak : Z,
    (0 <= current_streak)%Z ->
    finish 1 (fold_left (streak_step [negative] 1) labels (count, current_streak))
    = (count + (if (current_streak >=? 1)%Z then 1 else 0)
       + Z.of_nat (turns_negative (current_streak >=? 1)%Z labels))%Z.
Proof.
  induction labels as [|e l IH]; intros count current_streak Hs.
  - unfold finish. simpl. destruct (current_streak >=? 1)%Z; lia.
  - cbn [fold_left turns_negative].
    set (next := streak_step [negative] 1 (count, current_streak) e).
    assert (next = if Py.mem e [negative] then (count, (current_streak + 1)%Z)
                   else ((if (current_streak >=? 1)%Z
                          then count + 1 else count)%Z, 0%Z)) as En by reflexivity.
    clearbody next. subst next. rewrite mem_negative.
    destruct (String.eqb e negative).
    + rewrite IH by lia.
      destruct (Z.geb_spec (current_streak + 1) 1) as [_|]; [|lia].
      destruct (Z.geb_spec current_streak 1); simpl; lia.
    + rewrite IH by lia. change (0 >=? 1)%Z with false.
      destruct (Z.geb_spec current_streak 1); simpl; lia.
Qed.

(** The index loop of [negative_points] over the rows after [x]. *)
Lemma negative_points_turns (rest : list row) :
  forall (x : row) (pre : list row),
    length (filter (fun i =>
                      String.eqb (customer_at (pre ++ x :: rest) i) negative
                      && negb (String.eqb (customer_at (pre ++ x :: rest) (i - 1)) negative))
                   (seq (S (length pre)) (length rest)))
    = turns_negative (String.eqb (customer_emotion x) negative)
                     (map customer_emotion rest).
Proof.
  induction rest as [|y rest IH]; intros x pre; [reflexivity|].
  cbn [length seq filter map turns_negative].
  assert (customer_at (pre ++ x :: y :: rest) (S (length pre)) = customer_emotion y) as Ey.
  { unfold customer_at. rewrite app_nth2 by lia.
    replace (S (length pre) - length pre)%nat with 1%nat by lia. reflexivity. }
  assert (customer_at (pre ++ x :: y :: rest) (S (length pre) - 1) = customer_emotion x)
    as Ex.
  { unfold customer_at. simpl Nat.sub. rewrite Nat.sub_0_r. now rewrite nth_middle. }
  rewrite Ey, Ex.
  specialize (IH y (pre ++ [x])).
  rewrite <- app_assoc, length_app in IH. simpl in IH.
  rewrite Nat.add_1_r in IH.
  destruct (String.eqb (customer_emotion y) negative
            && negb (String.eqb (customer_emotion x) negative));
    cbn [length]; rewrite IH; reflexivity.
Qed.

(** The number of moments reported under 'негатив_клиента', plus one when
    the call opens with a negative client label, is the number of negative
    client streaks that [count_emotion_sequences] finds with minimal length
    1: every streak but one that opens the call is reported exactly once,
    at its first segment. *)
Theorem negative_points_count_streaks (df : DataFrame) :
  (Z.of_nat (length (negative_points (extract_key_moments df)))
   + (if opens_negative df then 1 else 0))%Z
  = count_emotion_sequences (map customer_emotion df) [negative] 1.
Proof.
  rewrite count_emotion_sequences_finish, scan_turns_negative by lia.
  change (0 >=? 1)%Z with false. cbn [negative_points extract_key_moments].
  rewrite collect_filter, length_map.
  destruct df as [|x rest]; [reflexivity|].
  unfold Py.range. cbn [length map turns_negative opens_negative].
  replace (S (length rest) - 1)%nat with (length rest) by lia.
  pose proof (negative_points_turns rest x []) as Hturns.
  cbn [app length] in Hturns. rewrite Hturns. simpl negb. rewrite andb_true_r.
  destruct (String.eqb (customer_emotion x) negative); lia.
Qed.

(** ** Smoothing with the default window, position by position *)

(** What smoothing with window 3 leaves at position [i] of a sequence of
    more than three labels: the first label stays, the last position takes
    the label before it, and a label in between stays when it equals one of
    its neighbours and otherwise gives way to its left neighbour. *)
Definition smoothed_label (emotions : list string) (i : nat) : string :=
  let label j := nth j emotions EmptyString in
  if (i =? 0)%nat then label 0%nat
  else if (i =? length emotions - 1)%nat then label (i - 1)%nat
  else if String.eqb (label i) (label (i - 1)%nat)
          || String.eqb (label i) (label (i + 1)%nat)
       then label i else label (i - 1)%nat.

Ltac eqb_cases :=
  repeat match goal with
         | |- context [String.eqb ?x ?y] =>
             destruct (String.eqb_spec x y); subst;
             rewrite ?String.eqb_refl in *; simpl
         end.

Lemma most_common_2 (a b : string) : most_common [a; b] = Ok a.
Proof.
  unfold most_common, count_step. simpl.
  eqb_cases; reflexivity.
Qed.

Lemma most_common_3 (a b c : string) :
  most_common [a; b; c] = Ok (if String.eqb b a || String.eqb b c then b else a).
Proof.
  unfold most_common, count_step. simpl.
  eqb_cases; try reflexivity; try congruence.
Qed.

(** With window size 3, a sequence of more than three labels is smoothed to
    a sequence of the same length in which the first label is kept, the
    last position holds the label that preceded it, and a label in between
    is kept when it equals its left or right neighbour and is replaced by
    its left neighbour otherwise. *)
Theorem smooth_emotions_window3_positions (emotions : list string) :
  (3 < length emotions)%nat ->
  exists smoothed,
    smooth_emotions emotions 3 = Ok smoothed
    /\ length smoothed = length emotions
    /\ forall i, (i < length emotions)%nat ->
                 nth i smoothed EmptyString = smoothed_label emotions i.
Proof.
  intro Hlen.
  destruct (smooth_emotions_total emotions 3) as [smoothed E]; [lia|].
  destruct (smooth_emotions_ok _ _ _ E) as (Hl & _ & _ & Hpos).
  exists smoothed. split; [exact E|]. split; [exact Hl|].
  intros i Hi. specialize (Hpos ltac:(lia) i Hi).
  rewrite window_at_3 in Hpos by exact Hi.
  unfold centered_window in Hpos. unfold smoothed_label.
  destruct (Nat.eqb_spec i 0) as [->|Hi0].
  - replace (Nat.min (0 + 2) (length emotions) - (0 - 1))%nat with 2%nat in Hpos by lia.
    simpl in Hpos. rewrite most_common_2 in Hpos. now injection Hpos as <-.
  - destruct (Nat.eqb_spec i (length emotions - 1)) as [Hlast|Hmid].
    + replace (Nat.min (i + 2) (length emotions) - (i - 1))%nat with 2%nat in Hpos by lia.
      cbn [seq map] in Hpos. rewrite most_common_2 in Hpos. now injection Hpos as <-.
    + replace (Nat.min (i + 2) (length emotions) - (i - 1))%nat with 3%nat in Hpos by lia.
      cbn [seq map] in Hpos.
      replace (S (S (i - 1))) with (i + 1)%nat in Hpos by lia.
      replace (S (i - 1)) with i in Hpos by lia.
      rewrite most_common_3 in Hpos. now injection Hpos as <-.
Qed.

Lemma smooth_emotions_window3_positions_witness :
  exists smoothed,
    smooth_emotions [joy; negative; joy; neutral; neutral] 3 = Ok smoothed
    /\ smoothed = [joy; joy; negative; neutral; neutral]
    /\ nth 2 smoothed EmptyString
       = smoothed_label [joy; negative; joy; neutral; neutral] 2.
Proof.
  destruct (smooth_emotions_window3_positions [joy; negative; joy; neutral; neutral])
    as (smoothed & E & _ & H); [simpl; lia|].
  exists smoothed. split; [exact E|]. split.
  - vm_compute in E. now injection E as <-.
  - apply H. simpl. lia.
Defined.
